(** * Stonks: the moving-average strategy and its backtest engine

    A shallow embedding of [strategies/base_strategy.py] and
    [strategies/moving_average.py], the properties the specification
    states about them, and further properties of the same code.

    Numbers.  The Python code computes on IEEE doubles held in pandas
    columns.  The embedding keeps the special values that steer the code
    (NaN for "no value", the two infinities that a division by a zero
    close produces) and idealises the finite values as exact rationals:
    there is no rounding, no overflow and no signed zero.

    Objects.  A DataFrame is a mutable object; the store maps references
    to frames, [data.copy()] allocates, and a column assignment updates
    the frame a reference points to.

    Callers.  The parts of the dashboard that call the two modules or
    read their results are embedded as well: the batch loop of
    [dashboard/main.py], and the verdicts and the drawdown chart of
    [dashboard/components].

    Left out.  The calls to the logger and to streamlit, which format
    values, write to the log or draw on the page without changing any
    result, and the plotting methods. *)

From Stdlib Require Import QArith Qabs Lqa Lia.
From stdpp Require Import gmap strings list pretty.

Open Scope Q_scope.

(** ** Floating-point values *)

Module Float.

Inductive fl : Type :=
| Fin (q : Q)
| PInf
| NInf
| NaN.

Definition isnan (a : fl) : bool :=
  match a with NaN => true | _ => false end.

Definition notna (a : fl) : bool := negb (isnan a).

Definition inf_of_sign (c : comparison) : fl :=
  match c with Gt => PInf | Lt => NInf | Eq => NaN end.

Definition fl_add (a b : fl) : fl :=
  match a, b with
  | NaN, _ | _, NaN => NaN
  | Fin x, Fin y => Fin (x + y)
  | PInf, NInf | NInf, PInf => NaN
  | PInf, _ | _, PInf => PInf
  | NInf, _ | _, NInf => NInf
  end.

Definition fl_opp (a : fl) : fl :=
  match a with
  | Fin x => Fin (- x)
  | PInf => NInf
  | NInf => PInf
  | NaN => NaN
  end.

Definition fl_sub (a b : fl) : fl := fl_add a (fl_opp b).

Definition fl_mul (a b : fl) : fl :=
  match a, b with
  | NaN, _ | _, NaN => NaN
  | Fin x, Fin y => Fin (x * y)
  | PInf, Fin y | Fin y, PInf => inf_of_sign (y ?= 0)
  | NInf, Fin y | Fin y, NInf => inf_of_sign (0 ?= y)
  | PInf, PInf | NInf, NInf => PInf
  | PInf, NInf | NInf, PInf => NInf
  end.

(** Division by a zero divisor does not raise on float columns: it gives
    an infinity of the sign of the dividend, and NaN for 0/0. *)
Definition fl_div (a b : fl) : fl :=
  match a, b with
  | NaN, _ | _, NaN => NaN
  | Fin x, Fin y =>
      if Qeq_bool y 0 then inf_of_sign (x ?= 0) else Fin (x / y)
  | Fin _, PInf | Fin _, NInf => Fin 0
  | PInf, Fin y => if Qle_bool 0 y then PInf else NInf
  | NInf, Fin y => if Qle_bool 0 y then NInf else PInf
  | PInf, PInf | PInf, NInf | NInf, PInf | NInf, NInf => NaN
  end.

Definition fl_abs (a : fl) : fl :=
  match a with
  | Fin x => Fin (Qabs x)
  | PInf | NInf => PInf
  | NaN => NaN
  end.

(** Ordering; [None] when an operand is NaN, so that every comparison
    with NaN is false except [!=]. *)
Definition fl_cmp (a b : fl) : option comparison :=
  match a, b with
  | NaN, _ | _, NaN => None
  | Fin x, Fin y => Some (x ?= y)
  | PInf, PInf | NInf, NInf => Some Eq
  | PInf, _ | _, NInf => Some Gt
  | NInf, _ | _, PInf => Some Lt
  end.

Definition fl_ltb (a b : fl) : bool :=
  match fl_cmp a b with Some Lt => true | _ => false end.
Definition fl_gtb (a b : fl) : bool :=
  match fl_cmp a b with Some Gt => true | _ => false end.
Definition fl_leb (a b : fl) : bool :=
  match fl_cmp a b with Some Lt | Some Eq => true | _ => false end.
Definition fl_geb (a b : fl) : bool :=
  match fl_cmp a b with Some Gt | Some Eq => true | _ => false end.
Definition fl_eqb (a b : fl) : bool :=
  match fl_cmp a b with Some Eq => true | _ => false end.
Definition fl_neb (a b : fl) : bool := negb (fl_eqb a b).

Definition fl_max (a b : fl) : fl := if fl_ltb a b then b else a.
Definition fl_min (a b : fl) : fl := if fl_ltb b a then b else a.

(** Numeric equality of two values: the rationals up to [==], the
    special values up to identity. *)
Definition fl_eq (a b : fl) : Prop :=
  match a, b with
  | Fin x, Fin y => x == y
  | PInf, PInf | NInf, NInf | NaN, NaN => True
  | _, _ => False
  end.

Definition of_Z (z : Z) : fl := Fin (inject_Z z).
Definition of_nat (n : nat) : fl := Fin (inject_Z (Z.of_nat n)).

End Float.
Export Float.

Infix "≈" := fl_eq (at level 70, no associativity).

(** ** The pandas operations the engine calls *)

Module Pandas.

Abbreviation Series := (list fl).

(** [s.shift(1)]: every value moves one row down, the first row is NaN. *)
Definition shift1 (xs : Series) : Series := take (length xs) (NaN :: xs).

(** [s.fillna(v)] *)
Definition fillna (v : fl) (xs : Series) : Series :=
  (fun x => if isnan x then v else x) <$> xs.

(** [s.dropna()] *)
Definition dropna (xs : Series) : Series := List.filter notna xs.

(** [s.diff()] is [s - s.shift(1)]. *)
Definition diff (xs : Series) : Series := zip_with fl_sub xs (shift1 xs).

(** [s.abs()] *)
Definition series_abs (xs : Series) : Series := fl_abs <$> xs.

(** [s.pct_change()] is [s / s.shift(1) - 1]; the closes are finite, so
    there is nothing to forward-fill. *)
Definition pct_change (xs : Series) : Series :=
  (fun x => fl_sub x (Fin 1)) <$> zip_with fl_div xs (shift1 xs).

(** [numpy.cumprod]: a left-to-right running product. *)
Fixpoint cumprod_from (acc : fl) (xs : Series) : Series :=
  match xs with
  | [] => []
  | x :: rest => let acc' := fl_mul acc x in acc' :: cumprod_from acc' rest
  end.

Definition np_cumprod (xs : Series) : Series :=
  match xs with
  | [] => []
  | x :: rest => x :: cumprod_from x rest
  end.

(** [s.cumprod()] skips NaN: the NaN rows are replaced by 1 for the
    running product and put back as NaN in the result. *)
Definition cumprod (xs : Series) : Series :=
  let mask := isnan <$> xs in
  let vals := fillna (Fin 1) xs in
  zip_with (fun (m : bool) r => if m then NaN else r) mask (np_cumprod vals).

(** [s.expanding().max()]: the largest valid observation so far, NaN
    while there is none ([min_periods] is 1). *)
Fixpoint expanding_max_from (best : option fl) (xs : Series) : Series :=
  match xs with
  | [] => []
  | x :: rest =>
      let best' :=
        if isnan x then best
        else match best with
             | None => Some x
             | Some b => Some (fl_max b x)
             end in
      default NaN best' :: expanding_max_from best' rest
  end.

Definition expanding_max (xs : Series) : Series := expanding_max_from None xs.

(** [s.min()] skips NaN and is NaN when nothing is left. *)
Definition series_min (xs : Series) : fl :=
  match dropna xs with
  | [] => NaN
  | x :: rest => foldl fl_min x rest
  end.

Definition series_sum (xs : Series) : fl := foldl fl_add (Fin 0) (dropna xs).

Definition count (xs : Series) : nat := length (dropna xs).

(** [s.mean()]; 0/0 is NaN for an empty series. *)
Definition mean (xs : Series) : fl := fl_div (series_sum xs) (of_nat (count xs)).

(** [s.var()] with the default [ddof=1]: NaN unless there are at least
    two valid observations. *)
Definition var (xs : Series) : fl :=
  let n := count xs in
  if (n <=? 1)%nat then NaN
  else
    let avg := mean xs in
    let sqr := series_sum ((fun x => let d := fl_sub avg x in fl_mul d d) <$> dropna xs) in
    fl_div sqr (of_nat (n - 1)).

(** [(s > 0).sum()] and the like: the number of [True] rows. *)
Definition count_true (bs : list bool) : nat := length (List.filter id bs).

(** [s.iloc[-1]]: the last row; an empty series has none. *)
Definition iloc_last (xs : Series) : option fl := last xs.

(** [df.loc[mask, col] = v] on the column [xs]. *)
Definition loc_set (mask : list bool) (v : fl) (xs : Series) : Series :=
  zip_with (fun (m : bool) x => if m then v else x) mask xs.

Definition Qsum (xs : list Q) : Q := foldr Qplus 0 xs.

(** [close.rolling(window=w, min_periods=w).mean()]: the mean of the [w]
    closes ending at row [i], NaN for the first [w-1] rows. *)
Definition rolling_mean (w : nat) (xs : list Q) : Series :=
  (fun i =>
     if decide (w <= S i)%nat
     then fl_div (Fin (Qsum (take w (drop (S i - w) xs)))) (of_nat w)
     else NaN) <$> seq 0 (length xs).

End Pandas.
Export Pandas.

(** ** DataFrames, references and the store *)

Module Frames.

(** A price table: the [Close] column, which the data source fills with
    finite prices, and every other column by name (the remaining OHLCV
    columns and whatever the engine adds). *)
Record DataFrame : Type := mkDataFrame {
  Close : list Q;
  cols : gmap string Series
}.

(** [len(data)] *)
Definition df_len (data : DataFrame) : nat := length (Close data).

(** [data[name]].  pandas raises a [KeyError] for a column that does not
    exist; every read in the two modules follows a write of the column
    it reads ([Position] is written by [generate_signals] before
    [_calculate_returns] reads it), so the read is modelled as total. *)
Definition get_col (name : string) (data : DataFrame) : Series :=
  cols data !!! name.

(** [data[name] = s] *)
Definition set_col (name : string) (s : Series) (data : DataFrame) : DataFrame :=
  {| Close := Close data; cols := <[name := s]> (cols data) |}.

(** [data[name] = rhs], where the right-hand side reads [data]. *)
Definition assign (name : string) (rhs : DataFrame -> Series) (data : DataFrame)
    : DataFrame :=
  set_col name (rhs data) data.

(** [data[name] = v] for a scalar [v] fills the whole column. *)
Definition set_scalar (name : string) (v : fl) (data : DataFrame) : DataFrame :=
  assign name (fun data => replicate (df_len data) v) data.

(** [data.iloc[i][name]] *)
Definition iloc_get (i : nat) (name : string) (data : DataFrame) : fl :=
  default NaN (get_col name data !! i).

(** [data.iloc[i, data.columns.get_loc(name)] = v] *)
Definition iloc_set (i : nat) (name : string) (v : fl) (data : DataFrame) : DataFrame :=
  set_col name (<[i := v]> (get_col name data)) data.

Definition close_col (data : DataFrame) : Series := Fin <$> Close data.

Abbreviation loc := positive.
Abbreviation store := (gmap loc DataFrame).

(** The exceptions the two modules can raise.  [Dangling] is not a
    Python exception: it is the outcome of following a reference the
    store does not hold, which no Python program can do. *)
Inductive exn : Type :=
| ValueError (msg : string)
| IndexError (msg : string)
| Dangling.

(** Computations on the store that may raise. *)
Definition M (A : Type) : Type := store -> exn + (A * store).

#[export] Instance M_ret : MRet M := fun A a h => inr (a, h).
#[export] Instance M_bind : MBind M := fun A B f m h =>
  match m h with
  | inl e => inl e
  | inr (a, h') => f a h'
  end.

Definition raise {A : Type} (e : exn) : M A := fun _ => inl e.

(** Dereference. *)
Definition deref (l : loc) : M DataFrame := fun h =>
  match h !! l with
  | Some data => inr (data, h)
  | None => inl Dangling
  end.

(** In-place update of the frame [l] refers to. *)
Definition update (l : loc) (f : DataFrame -> DataFrame) : M unit := fun h =>
  match h !! l with
  | Some data => inr (tt, <[l := f data]> h)
  | None => inl Dangling
  end.

(** [data.copy()]: a new object with the same columns. *)
Definition df_copy (l : loc) : M loc := fun h =>
  match h !! l with
  | Some data => let l' := fresh (dom h) in inr (l', <[l' := data]> h)
  | None => inl Dangling
  end.

End Frames.
Export Frames.

(** Statements in sequence, each acting on the frame the previous one left. *)
Notation "data |> stmt" := (stmt data)
  (at level 45, left associativity, only parsing).

(** ** strategies/base_strategy.py *)

Module BaseStrategy.

Open Scope string_scope.

(** config.py, and the default of [commission] *)
Definition INITIAL_CAPITAL : Q := 10000.
Definition default_commission : Q := 1 # 1000.

Record Metrics : Type := mkMetrics {
  total_return : fl;
  buyhold_return : fl;
  excess_return : fl;
  volatility : fl;
  sharpe_ratio : fl;
  max_drawdown : fl;
  win_rate : fl;
  total_trades : nat
}.

(** The dictionary [backtest] returns (and keeps in
    [self.backtest_results]); ['data'] and ['equity_curve'] are
    references to frames in the store. *)
Record BacktestResults : Type := mkBacktestResults {
  res_data : loc;
  res_equity_curve : loc;
  res_metrics : Metrics;
  res_initial_capital : Q;
  res_commission : Q
}.

(** The body of [_calculate_returns]: one column assignment per line of
    the source, each reading the columns written before it. *)
Definition _calculate_returns_frame
    (data : DataFrame) (initial_capital commission : Q) : DataFrame :=
  data
  |> assign "Returns" (fun data => pct_change (close_col data))
  |> assign "Position_Lagged"
       (fun data => fillna (Fin 0) (shift1 (get_col "Position" data)))
  |> assign "Strategy_Returns"
       (fun data => zip_with fl_mul (get_col "Position_Lagged" data)
                                    (get_col "Returns" data))
  |> assign "Position_Change"
       (fun data => series_abs (diff (get_col "Position_Lagged" data)))
  |> assign "Commission_Cost"
       (fun data => (fun x => fl_mul x (Fin commission))
                      <$> get_col "Position_Change" data)
  |> assign "Strategy_Returns_Net"
       (fun data => zip_with fl_sub (get_col "Strategy_Returns" data)
                                    (get_col "Commission_Cost" data))
  |> assign "Cumulative_Returns"
       (fun data => cumprod (fl_add (Fin 1)
                               <$> get_col "Strategy_Returns_Net" data))
  |> assign "Portfolio_Value"
       (fun data => fl_mul (Fin initial_capital)
                      <$> get_col "Cumulative_Returns" data)
  |> assign "BuyHold_Returns"
       (fun data => fillna (Fin 0) (get_col "Returns" data))
  |> assign "BuyHold_Cumulative"
       (fun data => cumprod (fl_add (Fin 1)
                               <$> get_col "BuyHold_Returns" data))
  |> assign "BuyHold_Value"
       (fun data => fl_mul (Fin initial_capital)
                      <$> get_col "BuyHold_Cumulative" data).

(** [_calculate_returns] adds its columns to the frame it is given and
    returns that same frame. *)
Definition _calculate_returns
    (data : loc) (initial_capital commission : Q) : M loc :=
  _ ← update data (fun d => _calculate_returns_frame d initial_capital commission);
  mret data.

Definition _calculate_max_drawdown (equity_curve : Series) : fl :=
  let peak := expanding_max equity_curve in
  let drawdown := zip_with fl_div (zip_with fl_sub equity_curve peak) peak in
  series_min drawdown.

Definition default_risk_free_rate : Q := 2 # 100.

Section Engine.

(** [numpy.sqrt], which the rationals do not have; nothing below depends
    on what it computes. *)
Variable np_sqrt : fl -> fl.

(** [s.std()] *)
Definition std (xs : Series) : fl := np_sqrt (var xs).

Definition _calculate_sharpe_ratio (returns : Series) (risk_free_rate : Q) : fl :=
  if fl_eqb (std returns) (Fin 0) then Fin 0
  else
    let excess_return :=
      fl_sub (fl_mul (mean returns) (Fin 252)) (Fin risk_free_rate) in
    let volatility := fl_mul (std returns) (np_sqrt (Fin 252)) in
    fl_div excess_return volatility.

(** [_calculate_metrics] on the frame [results] refers to; [iloc[-1]]
    raises on a frame without rows. *)
Definition _calculate_metrics_frame (results : DataFrame) : exn + Metrics :=
  let strategy_returns := dropna (get_col "Strategy_Returns_Net" results) in
  let buyhold_returns := dropna (get_col "BuyHold_Returns" results) in
  match iloc_last (get_col "Cumulative_Returns" results) with
  | None => inl (IndexError "single positional indexer is out-of-bounds")
  | Some last_cumulative =>
  let total_return := fl_sub last_cumulative (Fin 1) in
  match iloc_last (get_col "BuyHold_Cumulative" results) with
  | None => inl (IndexError "single positional indexer is out-of-bounds")
  | Some last_buyhold =>
  let buyhold_return := fl_sub last_buyhold (Fin 1) in
  let volatility := fl_mul (std strategy_returns) (np_sqrt (Fin 252)) in
  let max_drawdown := _calculate_max_drawdown (get_col "Portfolio_Value" results) in
  let sharpe_ratio := _calculate_sharpe_ratio strategy_returns default_risk_free_rate in
  let winning_trades :=
    count_true ((fun x => fl_gtb x (Fin 0)) <$> strategy_returns) in
  let total_trades :=
    length (List.filter (fun x => fl_neb x (Fin 0)) strategy_returns) in
  let win_rate :=
    if (0 <? total_trades)%nat
    then fl_div (of_nat winning_trades) (of_nat total_trades)
    else Fin 0 in
  inr {| total_return := total_return;
         buyhold_return := buyhold_return;
         excess_return := fl_sub total_return buyhold_return;
         volatility := volatility;
         sharpe_ratio := sharpe_ratio;
         max_drawdown := max_drawdown;
         win_rate := win_rate;
         total_trades := total_trades |}
  end end.

Definition _calculate_metrics (data results : loc) : M Metrics :=
  r ← deref results;
  match _calculate_metrics_frame r with
  | inl e => raise e
  | inr m => mret m
  end.

(** The abstract method: a strategy supplies [generate_signals]. *)
Variable generate_signals : loc -> M loc.

Definition backtest (data : loc) (initial_capital commission : Q)
    : M BacktestResults :=
  copy ← df_copy data;
  data_with_signals ← generate_signals copy;
  results ← _calculate_returns data_with_signals initial_capital commission;
  metrics ← _calculate_metrics data_with_signals results;
  mret {| res_data := data_with_signals;
          res_equity_curve := results;
          res_metrics := metrics;
          res_initial_capital := initial_capital;
          res_commission := commission |}.

End Engine.

End BaseStrategy.
Export BaseStrategy.

(** ** strategies/moving_average.py *)

Module MovingAverageStrategy.

Open Scope string_scope.

(** config.py *)
Definition DEFAULT_SHORT_WINDOW : Z := 50.
Definition DEFAULT_LONG_WINDOW : Z := 200.

Record Strategy : Type := mkStrategy {
  name : string;
  short_window : Z;
  long_window : Z
}.

(** [__init__]: the fields are set first, then the two checks run in the
    order of the source. *)
Definition init (short_window long_window : Z) (name : option string)
    : exn + Strategy :=
  let name :=
    match name with
    | None => "MA Crossover (" +:+ pretty short_window +:+ "/"
                +:+ pretty long_window +:+ ")"
    | Some n => n
    end in
  let self := mkStrategy name short_window long_window in
  if (short_window >=? long_window)%Z then
    inl (ValueError ("Short window (" +:+ pretty short_window
                       +:+ ") must be less than long window ("
                       +:+ pretty long_window +:+ ")"))
  else if (short_window <? 2)%Z then
    inl (ValueError "Short window must be at least 2 days")
  else inr self.

(** The column name [f'MA_{window}']. *)
Definition ma_name (window : Z) : string := "MA_" +:+ pretty window.

(** One turn of the loop that converts signals to positions. *)
Definition position_loop_body (st : fl * DataFrame) (i : nat) : fl * DataFrame :=
  let '(current_position, data) := st in
  let current_position :=
    if fl_eqb (iloc_get i "Signal" data) (Fin 1) then Fin 1
    else if fl_eqb (iloc_get i "Signal" data) (Fin (-1)) then Fin 0
    else current_position in
  (current_position, iloc_set i "Position" current_position data).

(** The mask [(short > long) & (short.shift(1) <= long.shift(1))]. *)
Definition golden_cross (ma_short ma_long : string) (data : DataFrame) : list bool :=
  zip_with andb
    (zip_with fl_gtb (get_col ma_short data) (get_col ma_long data))
    (zip_with fl_leb (shift1 (get_col ma_short data))
                     (shift1 (get_col ma_long data))).

(** The mask [(short < long) & (short.shift(1) >= long.shift(1))]. *)
Definition death_cross (ma_short ma_long : string) (data : DataFrame) : list bool :=
  zip_with andb
    (zip_with fl_ltb (get_col ma_short data) (get_col ma_long data))
    (zip_with fl_geb (shift1 (get_col ma_short data))
                     (shift1 (get_col ma_long data))).

(** The loop over [range(len(data))]. *)
Definition position_loop (data : DataFrame) : DataFrame :=
  snd (foldl position_loop_body (Fin 0, data) (seq 0 (df_len data))).

(** The body of [generate_signals].  The windows of a constructed
    strategy are at least 2, so [Z.to_nat] loses nothing ([rolling]
    rejects a negative window, which no constructed strategy has). *)
Definition generate_signals_frame (self : Strategy) (data : DataFrame) : DataFrame :=
  if (Z.of_nat (df_len data) <? long_window self)%Z then
    data
    |> set_scalar "Signal" (Fin 0)
    |> set_scalar "Position" (Fin 0)
  else
    let ma_short := ma_name (short_window self) in
    let ma_long := ma_name (long_window self) in
    data
    |> assign ma_short
         (fun data => rolling_mean (Z.to_nat (short_window self)) (Close data))
    |> assign ma_long
         (fun data => rolling_mean (Z.to_nat (long_window self)) (Close data))
    |> set_scalar "Signal" (Fin 0)
    |> assign "Signal"
         (fun data => loc_set (golden_cross ma_short ma_long data) (Fin 1)
                        (get_col "Signal" data))
    |> assign "Signal"
         (fun data => loc_set (death_cross ma_short ma_long data) (Fin (-1))
                        (get_col "Signal" data))
    |> set_scalar "Position" (Fin 0)
    |> position_loop.

(** [generate_signals] writes into the frame it is given and returns
    that same frame. *)
Definition generate_signals (self : Strategy) (data : loc) : M loc :=
  _ ← update data (generate_signals_frame self);
  mret data.

(** [MovingAverageStrategy.backtest], inherited from the base class. *)
Definition backtest (np_sqrt : fl -> fl) (self : Strategy)
    (data : loc) (initial_capital commission : Q) : M BacktestResults :=
  BaseStrategy.backtest np_sqrt (generate_signals self)
    data initial_capital commission.

End MovingAverageStrategy.
Export MovingAverageStrategy.

(** ** The reports: [print_results] of strategies/base_strategy.py *)

Module Reports.

Open Scope string_scope.

(** The character [\n]. *)
Definition newline : string := String (Ascii.ascii_of_nat 10) "".

Section Printing.

(** The formatting of an f-string field, [format(value, spec)], for a
    float and for an integer; nothing below depends on the digits it
    produces. *)
Variable format : string -> fl -> string.
Variable format_int : string -> nat -> string.

(** [print_results]: the strings handed to [print], in order.  The
    argument is [self.backtest_results], [None] before the first
    [backtest]. *)
Definition print_results (name : string) (backtest_results : option BacktestResults)
    : list string :=
  match backtest_results with
  | None => ["❌ No backtest results available. Run backtest() first!"]
  | Some results =>
      let metrics := res_metrics results in
      ([ newline +:+ "📊 " +:+ name +:+ " Results:";
        "==================================================";
        "💰 Total Return:     " +:+ format ">8.2%" (total_return metrics);
        "📈 Buy & Hold:       " +:+ format ">8.2%" (buyhold_return metrics);
        "🎯 Excess Return:    " +:+ format ">8.2%" (excess_return metrics);
        "📉 Max Drawdown:     " +:+ format ">8.2%" (max_drawdown metrics);
        "⚡ Sharpe Ratio:     " +:+ format ">8.2f" (sharpe_ratio metrics);
        "🎲 Win Rate:         " +:+ format ">8.2%" (win_rate metrics);
        "🔄 Total Trades:     " +:+ format_int ">8.0f" (total_trades metrics) ]
      ++ (if fl_gtb (excess_return metrics) (Fin 0)
          then [ newline +:+ "🎉 Strategy beats buy & hold by "
                   +:+ format ".2%" (excess_return metrics) +:+ "!" ]
          else [ newline +:+ "😭 Strategy underperforms by "
                   +:+ format ".2%" (fl_abs (excess_return metrics));
                 "   Maybe just buy index funds? 🤷‍♂️" ]))%list
  end.

End Printing.

End Reports.
Export Reports.

(** ** dashboard/components/metrics.py and dashboard/components/charts.py *)

Module Dashboard.

Open Scope string_scope.

(** The streamlit call that shows a verdict. *)
Inductive alert : Type :=
| st_success (body : string)
| st_warning (body : string)
| st_error (body : string).

(** [_display_performance_interpretation]: the alert it shows, and the
    lines it writes into the "Detailed Analysis" expander (the expander
    is left out when there is no line). *)
Definition _display_performance_interpretation (metrics : Metrics)
    : alert * list string :=
  let excess_return := excess_return metrics in
  let sharpe_ratio := sharpe_ratio metrics in
  let max_drawdown := max_drawdown metrics in
  let win_rate := win_rate metrics in
  let '(verdict, alert_type) :=
    if fl_gtb excess_return (Fin (5 # 100)) && fl_gtb sharpe_ratio (Fin 1)
       && fl_gtb max_drawdown (Fin (-15 # 100))
    then ("🎉 **Excellent Performance!** This strategy significantly outperformed buy-and-hold with good risk management.",
          "success")
    else if fl_gtb excess_return (Fin 0) && fl_gtb sharpe_ratio (Fin (5 # 10))
    then ("✅ **Good Performance.** Strategy beat buy-and-hold with reasonable risk.",
          "success")
    else if fl_gtb excess_return (Fin (-2 # 100)) && fl_gtb sharpe_ratio (Fin 0)
    then ("⚠️ **Mixed Results.** Strategy roughly matched buy-and-hold performance.",
          "warning")
    else ("❌ **Poor Performance.** Strategy underperformed buy-and-hold. Consider sticking to index funds.",
          "error") in
  let shown :=
    if String.eqb alert_type "success" then st_success verdict
    else if String.eqb alert_type "warning" then st_warning verdict
    else st_error verdict in
  let insights :=
    ((if fl_ltb sharpe_ratio (Fin 0)
     then ["• Negative Sharpe ratio indicates poor risk-adjusted returns"]
     else if fl_gtb sharpe_ratio (Fin (15 # 10))
     then ["• Excellent Sharpe ratio - strong risk-adjusted performance"]
     else [])
    ++ (if fl_ltb max_drawdown (Fin (-3 # 10))
        then ["• High drawdown risk - strategy experienced significant losses"]
        else if fl_gtb max_drawdown (Fin (-1 # 10))
        then ["• Low drawdown - strategy maintained capital well"]
        else [])
    ++ (if fl_gtb win_rate (Fin (7 # 10))
        then ["• High win rate - strategy picks winners consistently"]
        else if fl_ltb win_rate (Fin (4 # 10))
        then ["• Low win rate - many losing trades, but winners might be larger"]
        else [])
    ++ (if (total_trades metrics <? 5)%nat
        then ["• Few trades generated - strategy may be too conservative"]
        else if (100 <? total_trades metrics)%nat
        then ["• High trading frequency - watch out for commission costs"]
        else []))%list in
  (shown, insights).

(** The rating that [display_performance_summary] puts into the summary
    table for one result. *)
Definition performance_rating (metrics : Metrics) : string :=
  let excess_return := excess_return metrics in
  if fl_gtb excess_return (Fin (5 # 100)) then "🏆 Excellent"
  else if fl_gtb excess_return (Fin 0) then "✅ Good"
  else if fl_gtb excess_return (Fin (-2 # 100)) then "⚠️ Fair"
  else "❌ Poor".

(** [create_drawdown_chart]: the values of the trace it plots, the
    drawdown of every row in percent, recomputed from the
    [Portfolio_Value] column of the result frame. *)
Definition create_drawdown_chart (strategy_data : DataFrame) : Series :=
  let portfolio_value := get_col "Portfolio_Value" strategy_data in
  let peak := expanding_max portfolio_value in
  let drawdown :=
    zip_with fl_div (zip_with fl_sub portfolio_value peak) peak in
  (fun x => fl_mul x (Fin 100)) <$> drawdown.

End Dashboard.
Export Dashboard.

(** ** dashboard/main.py *)

Module Main.

Open Scope string_scope.

(** One entry of the list [render_sidebar] builds from its
    [available_strategies]; [params] holds the two windows. *)
Record StrategyConfig : Type := mkStrategyConfig {
  cfg_name : string;
  cfg_type : string;
  cfg_short : Z;
  cfg_long : Z;
  cfg_description : string
}.

(** The dictionary [render_sidebar] returns. *)
Record AnalysisConfig : Type := mkAnalysisConfig {
  cfg_symbols : list string;
  cfg_period : string;
  cfg_strategies : list StrategyConfig;
  cfg_initial_capital : Q;
  cfg_commission : Q
}.

(** What [run_analysis] keeps for one symbol and one strategy. *)
Record ResultEntry : Type := mkResultEntry {
  entry_strategy : Strategy;
  entry_results : BacktestResults;
  entry_data : loc
}.

(** [all_results]: by symbol, then by strategy name. *)
Abbreviation Results := (gmap string (gmap string ResultEntry)).

(** [try: body except Exception: handler].  The handler starts from the
    store the body started from: the bodies below write, before they
    raise, only into frames that they have allocated themselves and
    that nothing refers to any more once they have raised. *)
Definition try_except {A : Type} (body : M A) (handler : exn -> M A) : M A :=
  fun h =>
    match body h with
    | inl e => handler e h
    | inr r => inr r
    end.

(** [for x in xs: body], the loop carrying the value [s]. *)
Fixpoint for_each {A S : Type} (xs : list A) (body : S -> A -> M S) (s : S)
    : M S :=
  match xs with
  | [] => mret s
  | x :: rest => s' ← body s x; for_each rest body s'
  end.

Section RunAnalysis.

Variable np_sqrt : fl -> fl.

(** [load_and_cache_data], which fetches a price table and returns a
    reference to it. *)
Variable load_and_cache_data : string -> string -> M loc.

(** One turn of the loop over the strategies; the calls to streamlit
    and to the logger, which report progress and errors and return
    nothing the code uses, are left out. *)
Definition run_strategy (analysis_config : AnalysisConfig) (symbol : string)
    (data : loc) (all_results : Results) (strategy_config : StrategyConfig)
    : M Results :=
  let strategy_name := cfg_name strategy_config in
  try_except
    (if String.eqb (cfg_type strategy_config) "ma" then
       match init (cfg_short strategy_config) (cfg_long strategy_config)
               (Some strategy_name) with
       | inl e => raise e
       | inr strategy =>
           copy ← df_copy data;
           results ← backtest np_sqrt strategy copy
                       (cfg_initial_capital analysis_config)
                       (cfg_commission analysis_config);
           mret (<[symbol :=
                     <[strategy_name :=
                         {| entry_strategy := strategy;
                            entry_results := results;
                            entry_data := data |}]>
                       (default ∅ (all_results !! symbol))]> all_results)
       end
     else mret all_results)
    (fun _ => mret all_results).

(** One turn of the loop over the symbols.  A table without rows is
    reported and skipped.  The loop over the strategies raises nothing,
    so the handler is only reached before [all_results] is written. *)
Definition run_symbol (analysis_config : AnalysisConfig)
    (all_results : Results) (symbol : string) : M Results :=
  try_except
    (data ← load_and_cache_data symbol (cfg_period analysis_config);
     d ← deref data;
     if (df_len d =? 0)%nat then mret all_results
     else
       for_each (cfg_strategies analysis_config)
         (run_strategy analysis_config symbol data)
         (<[symbol := ∅]> all_results))
    (fun _ => mret all_results).

Definition run_analysis (analysis_config : AnalysisConfig) : M Results :=
  for_each (cfg_symbols analysis_config) (run_symbol analysis_config) ∅.

End RunAnalysis.

End Main.
Export Main.

(** * Derived definitions

    The columns the two stages write, as functions of the closes, and
    the notions the properties below are stated with. *)

Open Scope Q_scope.

(** The default of a row lookup out of range. *)
#[export] Instance fl_inhabited : Inhabited fl := populate NaN.

(** ** The columns of [_calculate_returns] *)

(** [Position_Lagged] *)
Definition position_lagged (pos : Series) : Series := fillna (Fin 0) (shift1 pos).

(** [Strategy_Returns_Net], from the closes and the [Position] column. *)
Definition strategy_returns_net
    (close : list Q) (pos : Series) (commission : Q) : Series :=
  let r := pct_change (Fin <$> close) in
  let pl := position_lagged pos in
  zip_with fl_sub (zip_with fl_mul pl r)
    ((fun x => fl_mul x (Fin commission)) <$> series_abs (diff pl)).

(** [Cumulative_Returns] *)
Definition cumulative_returns
    (close : list Q) (pos : Series) (commission : Q) : Series :=
  cumprod (fl_add (Fin 1) <$> strategy_returns_net close pos commission).

(** [Portfolio_Value] *)
Definition portfolio_value
    (close : list Q) (pos : Series) (initial_capital commission : Q) : Series :=
  fl_mul (Fin initial_capital) <$> cumulative_returns close pos commission.

(** [BuyHold_Cumulative] *)
Definition buyhold_cumulative (close : list Q) : Series :=
  cumprod (fl_add (Fin 1) <$> fillna (Fin 0) (pct_change (Fin <$> close))).

(** [BuyHold_Value] *)
Definition buyhold_value (close : list Q) (initial_capital : Q) : Series :=
  fl_mul (Fin initial_capital) <$> buyhold_cumulative close.

(** ** The columns of [generate_signals] *)

(** The signal of one row from the two averages on that row and on the
    row before: the death-cross assignment comes last and wins. *)
Definition signal_at (s1 l1 s0 l0 : fl) : fl :=
  if fl_ltb s1 l1 && fl_geb s0 l0 then Fin (-1)
  else if fl_gtb s1 l1 && fl_leb s0 l0 then Fin 1
  else Fin 0.

(** The [Signal] column from the two average columns: all zeros, then
    the golden-cross rows set to 1, then the death-cross rows to -1. *)
Definition crossover_signals (ma_s ma_l : Series) (n : nat) : Series :=
  let golden :=
    zip_with andb (zip_with fl_gtb ma_s ma_l)
                  (zip_with fl_leb (shift1 ma_s) (shift1 ma_l)) in
  let death :=
    zip_with andb (zip_with fl_ltb ma_s ma_l)
                  (zip_with fl_geb (shift1 ma_s) (shift1 ma_l)) in
  loc_set death (Fin (-1)) (loc_set golden (Fin 1) (replicate n (Fin 0))).

(** The two moving averages of a strategy. *)
Definition ma_short_col (self : Strategy) (close : list Q) : Series :=
  rolling_mean (Z.to_nat (short_window self)) close.

Definition ma_long_col (self : Strategy) (close : list Q) : Series :=
  rolling_mean (Z.to_nat (long_window self)) close.

(** The [Signal] column, from the closes. *)
Definition signal_column (self : Strategy) (close : list Q) : Series :=
  crossover_signals (ma_short_col self close) (ma_long_col self close)
    (length close).

(** The position loop as a scan over the signals. *)
Fixpoint positions_from (current : fl) (signals : Series) : Series :=
  match signals with
  | [] => []
  | s :: rest =>
      let current' :=
        if fl_eqb s (Fin 1) then Fin 1
        else if fl_eqb s (Fin (-1)) then Fin 0
        else current in
      current' :: positions_from current' rest
  end.

(** The [Position] column, from the closes. *)
Definition position_column (self : Strategy) (close : list Q) : Series :=
  positions_from (Fin 0) (signal_column self close).

(** ** The run of [backtest] *)

(** The frame [backtest] computes from the caller's frame. *)
Definition equity_frame (self : Strategy) (d : DataFrame) (cap com : Q) : DataFrame :=
  _calculate_returns_frame (generate_signals_frame self d) cap com.

(** Whether a call raised. *)
Definition raisesb {A : Type} (outcome : exn + A) : bool :=
  match outcome with inl _ => true | inr _ => false end.

(** ** Inputs of the examples *)

(** A computable stand-in for [numpy.sqrt], to run the engine on
    examples: the root rounded down to a multiple of 2^-26. *)
Definition sqrt_approx (a : fl) : fl :=
  match a with
  | Fin q =>
      match q ?= 0 with
      | Lt => NaN
      | _ => Fin (Z.sqrt (Qnum q * Zpos (Qden q) * 4 ^ 26) # (Qden q * 2 ^ 26))
      end
  | PInf => PInf
  | NInf | NaN => NaN
  end.

(** The strategy [MovingAverageStrategy(2, 3)]. *)
Definition ma_2_3 : Strategy := mkStrategy "MA Crossover (2/3)" 2 3.

Definition one_row : DataFrame := mkDataFrame [100] ∅.
Definition two_rows : DataFrame := mkDataFrame [100; 110] ∅.
(** Closes that cross downwards at row 4 and upwards at row 7. *)
Definition crossing_rows : DataFrame :=
  mkDataFrame [10; 10; 20; 20; 5; 5; 5; 30; 30] ∅.
(** Twelve equal closes. *)
Definition constant_rows : DataFrame := mkDataFrame (replicate 12 100) ∅.

(** Four rows: too few for a crossover of the 2- and 3-day averages to
    be acted on. *)
Definition four_rows : DataFrame := mkDataFrame [10; 12; 9; 14] ∅.

(** Closes that never fall, with an upward crossing at row 3; closes
    that never rise; closes that rise on every row. *)
Definition rising_rows : DataFrame :=
  mkDataFrame [10; 10; 10; 11; 12; 13; 13; 15] ∅.

(** A data source that hands out the table at reference 1, and a batch
    of one symbol and two strategies, the second of which the
    constructor rejects. *)
Definition load_first : string -> string -> M loc :=
  fun symbol period => mret 1%positive.

Definition small_batch : AnalysisConfig :=
  {| cfg_symbols := ["SPY"%string];
     cfg_period := "1y"%string;
     cfg_strategies :=
       [ mkStrategyConfig "MA Cross (2/3)" "ma" 2 3 "quick";
         mkStrategyConfig "MA Cross (3/2)" "ma" 3 2 "backwards" ];
     cfg_initial_capital := 10000;
     cfg_commission := 1 # 1000 |}.

(** A number with its fraction in lowest terms, to display results. *)
Definition fl_red (a : fl) : fl :=
  match a with Fin q => Fin (Qred q) | _ => a end.

(** The metrics of a run that returned. *)
Definition metrics_of (outcome : exn + (BacktestResults * store)) : option Metrics :=
  match outcome with
  | inr (r, _) => Some (res_metrics r)
  | inl _ => None
  end.

(** ** Notions the properties are stated with *)

(** The product of the defined factors among the rows [0..i] of [xs],
    seeded at 1. *)
Definition product_upto (xs : Series) (i : nat) : fl :=
  foldl fl_mul (Fin 1) (dropna (take (S i) xs)).

(** The product over [k <= i] of [1 + net[k]], seeded at 1, over the
    rows where the net return is defined. *)
Definition return_product (net : Series) (i : nat) : fl :=
  foldl fl_mul (Fin 1) (fl_add (Fin 1) <$> dropna (take (S i) net)).

(** The same product with no row left out: an undefined factor makes it
    undefined. *)
Definition plain_product (net : Series) (i : nat) : fl :=
  foldl fl_mul (Fin 1) (fl_add (Fin 1) <$> take (S i) net).

(** What one turn of the loop does to the running position. *)
Definition position_step (current s : fl) : fl :=
  if fl_eqb s (Fin 1) then Fin 1
  else if fl_eqb s (Fin (-1)) then Fin 0
  else current.


(** One step of the expanding maximum. *)
Definition max_step (best : option fl) (x : fl) : option fl :=
  if isnan x then best
  else match best with
       | None => Some x
       | Some b => Some (fl_max b x)
       end.

(** The rows that hold a number, and what it means for them not to
    decrease. *)
Definition fin_or_nan (v : fl) : Prop :=
  match v with Fin _ | NaN => True | PInf | NInf => False end.

(** The defined values of a series, in order. *)
Definition finite_values (xs : Series) : list Q :=
  omap (fun v => match v with Fin q => Some q | _ => None end) xs.

(** Each value is at most the next one. *)
Fixpoint nondecreasing (qs : list Q) : Prop :=
  match qs with
  | x :: rest =>
      match rest with
      | y :: _ => x <= y /\ nondecreasing rest
      | [] => True
      end
  | [] => True
  end.

(** A number that is at most 0. *)
Definition nonpositive (v : fl) : Prop := exists q, v = Fin q /\ q <= 0.

(** A number, neither NaN nor infinite. *)
Definition is_finite (v : fl) : Prop :=
  match v with Fin _ => True | _ => False end.

(** A divisor that does not produce an infinity. *)
Definition nonzero_or_nan (v : fl) : Prop :=
  match v with Fin q => ~ q == 0 | NaN => True | _ => False end.




(** An entry of the results of [run_analysis] that comes from one of
    the configured strategies, accepted by the constructor, and holds
    the metrics of a backtest of a table with at least one row. *)
Definition genuine_entry (np_sqrt : fl -> fl) (analysis_config : AnalysisConfig)
    (name : string) (e : ResultEntry) : Prop :=
  exists strategy_config d,
    strategy_config ∈ cfg_strategies analysis_config
    /\ cfg_name strategy_config = name
    /\ cfg_type strategy_config = "ma"%string
    /\ (2 <= cfg_short strategy_config < cfg_long strategy_config)%Z
    /\ entry_strategy e
       = mkStrategy name (cfg_short strategy_config) (cfg_long strategy_config)
    /\ (0 < df_len d)%nat
    /\ _calculate_metrics_frame np_sqrt
         (equity_frame (entry_strategy e) d
            (cfg_initial_capital analysis_config)
            (cfg_commission analysis_config))
       = inr (res_metrics (entry_results e))
    /\ res_initial_capital (entry_results e) = cfg_initial_capital analysis_config
    /\ res_commission (entry_results e) = cfg_commission analysis_config
    /\ res_data (entry_results e) <> entry_data e.

(** Results in which every entry belongs to one of the given symbols
    and is genuine. *)
Definition sound_results (np_sqrt : fl -> fl) (analysis_config : AnalysisConfig)
    (symbols : list string) (all_results : Results) : Prop :=
  forall symbol entries name e,
    all_results !! symbol = Some entries -> entries !! name = Some e ->
    symbol ∈ symbols /\ genuine_entry np_sqrt analysis_config name e.

(** Results that hold an entry for a symbol and a strategy name. *)
Definition has_entry (all_results : Results) (symbol name : string) : Prop :=
  exists entries e, all_results !! symbol = Some entries /\ entries !! name = Some e.

(** * Properties *)

(** ** Columns of a frame *)

Lemma get_col_set_col n m s d :
  get_col n (set_col m s d) = if String.eqb m n then s else get_col n d.
Proof.
  unfold get_col, set_col; simpl.
  destruct (String.eqb_spec m n) as [->|Hne].
  - by rewrite lookup_total_insert_eq.
  - by rewrite lookup_total_insert_ne.
Qed.

Lemma get_col_assign n m f d :
  get_col n (assign m f d) = if String.eqb m n then f d else get_col n d.
Proof. apply get_col_set_col. Qed.

Lemma get_col_set_scalar n m v d :
  get_col n (set_scalar m v d)
  = if String.eqb m n then replicate (df_len d) v else get_col n d.
Proof. apply get_col_set_col. Qed.

Lemma Close_assign m f d : Close (assign m f d) = Close d.
Proof. done. Qed.

Lemma Close_set_scalar m v d : Close (set_scalar m v d) = Close d.
Proof. done. Qed.

Lemma df_len_assign m f d : df_len (assign m f d) = df_len d.
Proof. done. Qed.

Lemma df_len_set_scalar m v d : df_len (set_scalar m v d) = df_len d.
Proof. done. Qed.

Lemma set_col_set_col n a b d : set_col n a (set_col n b d) = set_col n a d.
Proof. unfold set_col; simpl. by rewrite insert_insert_eq. Qed.

Lemma cols_set_col_ne n m s d : n ≠ m -> cols (set_col m s d) !! n = cols d !! n.
Proof. intros Hne. unfold set_col; simpl. by rewrite lookup_insert_ne. Qed.

(** Reads of columns just written, resolved by comparing the names. *)
Ltac frame_simpl :=
  repeat first
    [ progress cbn [String.eqb Ascii.eqb Bool.eqb]
    | rewrite get_col_assign | rewrite get_col_set_scalar
    | rewrite Close_assign | rewrite Close_set_scalar
    | rewrite df_len_assign | rewrite df_len_set_scalar ].

(** ** The return columns as functions of closes and positions *)

Lemma returns_net_col d cap com :
  get_col "Strategy_Returns_Net" (_calculate_returns_frame d cap com)
  = strategy_returns_net (Close d) (get_col "Position" d) com.
Proof. unfold _calculate_returns_frame. frame_simpl. reflexivity. Qed.

Lemma cumulative_returns_col d cap com :
  get_col "Cumulative_Returns" (_calculate_returns_frame d cap com)
  = cumulative_returns (Close d) (get_col "Position" d) com.
Proof. unfold _calculate_returns_frame. frame_simpl. reflexivity. Qed.

Lemma portfolio_value_col d cap com :
  get_col "Portfolio_Value" (_calculate_returns_frame d cap com)
  = portfolio_value (Close d) (get_col "Position" d) cap com.
Proof. unfold _calculate_returns_frame. frame_simpl. reflexivity. Qed.

Lemma buyhold_cumulative_col d cap com :
  get_col "BuyHold_Cumulative" (_calculate_returns_frame d cap com)
  = buyhold_cumulative (Close d).
Proof. unfold _calculate_returns_frame. frame_simpl. reflexivity. Qed.

Lemma buyhold_value_col d cap com :
  get_col "BuyHold_Value" (_calculate_returns_frame d cap com)
  = buyhold_value (Close d) cap.
Proof. unfold _calculate_returns_frame. frame_simpl. reflexivity. Qed.

Lemma Close_calculate_returns d cap com :
  Close (_calculate_returns_frame d cap com) = Close d.
Proof. done. Qed.

(** ** Rows of the derived series *)

Lemma length_shift1 (xs : Series) : length (shift1 xs) = length xs.
Proof. unfold shift1. rewrite length_take. simpl. lia. Qed.

Lemma lookup_shift1_0 (xs : Series) :
  (0 < length xs)%nat -> shift1 xs !! 0%nat = Some NaN.
Proof. destruct xs; simpl; [lia | done]. Qed.

Lemma lookup_shift1_S (xs : Series) i :
  (S i < length xs)%nat -> shift1 xs !! S i = xs !! i.
Proof.
  intros Hi. unfold shift1. by rewrite lookup_take_lt.
Qed.

Lemma lookup_total_shift1_0 (xs : Series) : shift1 xs !!! 0%nat = NaN.
Proof. by destruct xs. Qed.

Lemma lookup_total_shift1_S (xs : Series) i :
  (S i < length xs)%nat -> shift1 xs !!! S i = xs !!! i.
Proof.
  intros Hi. rewrite !list_lookup_total_alt, lookup_shift1_S; done.
Qed.

(** Every operation of the pipeline is causal: a prefix of its result is
    its result on the prefix. *)
Lemma take_shift1 n (xs : Series) : take n (shift1 xs) = shift1 (take n xs).
Proof.
  unfold shift1. rewrite take_take, length_take.
  destruct (n `min` length xs)%nat as [|m] eqn:Hm; [done|].
  simpl. f_equal. rewrite take_take. f_equal. lia.
Qed.

Lemma length_fillna v xs : length (fillna v xs) = length xs.
Proof. apply length_fmap. Qed.

Lemma take_fillna n v xs : take n (fillna v xs) = fillna v (take n xs).
Proof. unfold fillna. by rewrite fmap_take. Qed.

Lemma take_diff n xs : take n (diff xs) = diff (take n xs).
Proof. unfold diff. by rewrite zip_with_take, take_shift1. Qed.

Lemma take_series_abs n xs : take n (series_abs xs) = series_abs (take n xs).
Proof. unfold series_abs. by rewrite fmap_take. Qed.

Lemma take_pct_change n xs : take n (pct_change xs) = pct_change (take n xs).
Proof. unfold pct_change. by rewrite <- fmap_take, zip_with_take, take_shift1. Qed.

Lemma length_pct_change xs : length (pct_change xs) = length xs.
Proof.
  unfold pct_change. rewrite length_fmap, length_zip_with, length_shift1. lia.
Qed.

Lemma length_rolling_mean w xs : length (rolling_mean w xs) = length xs.
Proof. unfold rolling_mean. by rewrite length_fmap, length_seq. Qed.

Lemma rolling_mean_lookup w xs i :
  (i < length xs)%nat ->
  rolling_mean w xs !! i
  = Some (if decide (w <= S i)%nat
          then fl_div (Fin (Qsum (take w (drop (S i - w) xs)))) (of_nat w)
          else NaN).
Proof.
  intros Hi. unfold rolling_mean.
  by rewrite list_lookup_fmap, lookup_seq_lt.
Qed.

Lemma take_rolling_mean n w xs :
  take n (rolling_mean w xs) = rolling_mean w (take n xs).
Proof.
  apply list_eq; intros i.
  destruct (decide (i < n `min` length xs)%nat) as [Hi|Hi].
  - rewrite lookup_take_lt by lia.
    rewrite !rolling_mean_lookup by (rewrite ?length_take; lia).
    f_equal. case_decide; [|done].
    do 3 f_equal.
    rewrite skipn_firstn_comm, take_take. f_equal. lia.
  - rewrite (lookup_ge_None_2 (rolling_mean w (take n xs)))
      by (rewrite length_rolling_mean, length_take; lia).
    destruct (decide (i < n)%nat).
    + rewrite lookup_take_lt by done.
      apply lookup_ge_None_2. rewrite length_rolling_mean. lia.
    + apply lookup_take_ge. lia.
Qed.

Lemma take_loc_set n mask v xs :
  take n (loc_set mask v xs) = loc_set (take n mask) v (take n xs).
Proof. unfold loc_set. by rewrite zip_with_take. Qed.

Lemma strategy_returns_net_take n close pos commission :
  take n (strategy_returns_net close pos commission)
  = strategy_returns_net (take n close) (take n pos) commission.
Proof.
  unfold strategy_returns_net, position_lagged.
  rewrite !zip_with_take, <- !fmap_take.
  by rewrite take_series_abs, take_diff, take_pct_change, !take_fillna,
    !take_shift1, <- fmap_take.
Qed.

(** ** The signal and position columns as functions of the closes *)

Lemma length_crossover_signals ms ml n :
  length ms = n -> length ml = n -> length (crossover_signals ms ml n) = n.
Proof.
  intros Hs Hl. unfold crossover_signals, loc_set.
  rewrite !length_zip_with, !length_shift1, length_replicate. lia.
Qed.

Lemma length_signal_column self close :
  length (signal_column self close) = length close.
Proof.
  apply length_crossover_signals; apply length_rolling_mean.
Qed.

Lemma length_positions_from cur sig :
  length (positions_from cur sig) = length sig.
Proof. revert cur; induction sig; intros; simpl; [done | by rewrite IHsig]. Qed.

Lemma length_position_column self close :
  length (position_column self close) = length close.
Proof.
  unfold position_column. by rewrite length_positions_from, length_signal_column.
Qed.

Lemma crossover_signals_lookup ms ml n i :
  length ms = n -> length ml = n -> (i < n)%nat ->
  crossover_signals ms ml n !! i
  = Some (signal_at (ms !!! i) (ml !!! i) (shift1 ms !!! i) (shift1 ml !!! i)).
Proof.
  intros Hs Hl Hi. unfold crossover_signals, loc_set.
  rewrite !lookup_zip_with.
  rewrite (list_lookup_lookup_total_lt ms i) by lia.
  rewrite (list_lookup_lookup_total_lt ml i) by lia.
  rewrite (list_lookup_lookup_total_lt (shift1 ms) i) by (rewrite length_shift1; lia).
  rewrite (list_lookup_lookup_total_lt (shift1 ml) i) by (rewrite length_shift1; lia).
  rewrite lookup_replicate_2 by done. simpl.
  unfold signal_at.
  destruct (fl_ltb _ _ && fl_geb _ _); [done|].
  by destruct (fl_gtb _ _ && fl_leb _ _).
Qed.

Lemma signal_column_lookup self close i :
  (i < length close)%nat ->
  signal_column self close !! i
  = Some (signal_at (ma_short_col self close !!! i) (ma_long_col self close !!! i)
            (shift1 (ma_short_col self close) !!! i)
            (shift1 (ma_long_col self close) !!! i)).
Proof.
  intros Hi. apply crossover_signals_lookup; [apply length_rolling_mean..|done].
Qed.

Lemma take_crossover_signals k ms ml n :
  take k (crossover_signals ms ml n)
  = crossover_signals (take k ms) (take k ml) (k `min` n).
Proof.
  unfold crossover_signals.
  by rewrite !take_loc_set, !zip_with_take, !take_shift1, take_replicate.
Qed.

Lemma take_signal_column k self close :
  take k (signal_column self close) = signal_column self (take k close).
Proof.
  unfold signal_column, ma_short_col, ma_long_col.
  by rewrite take_crossover_signals, !take_rolling_mean, length_take.
Qed.

Lemma take_positions_from k cur sig :
  take k (positions_from cur sig) = positions_from cur (take k sig).
Proof.
  revert k cur; induction sig as [|s sig IH]; intros [|k] cur; simpl; try done.
  by rewrite IH.
Qed.

Lemma take_position_column k self close :
  take k (position_column self close) = position_column self (take k close).
Proof.
  unfold position_column. by rewrite take_positions_from, take_signal_column.
Qed.

Lemma fl_cmp_NaN_r a : fl_cmp a NaN = None.
Proof. by destruct a. Qed.

Lemma signal_at_NaN_long s1 s0 l0 : signal_at s1 NaN s0 l0 = Fin 0.
Proof. unfold signal_at, fl_ltb, fl_gtb. by rewrite fl_cmp_NaN_r. Qed.

(** With fewer rows than the long window the long average is nowhere
    defined and no signal fires: the early return of [generate_signals]
    agrees with what the general path would compute. *)
Lemma signal_column_short self close :
  (Z.of_nat (length close) < long_window self)%Z ->
  signal_column self close = replicate (length close) (Fin 0).
Proof.
  intros Hlen. apply list_eq; intros i.
  destruct (decide (i < length close)%nat) as [Hi|Hi].
  - rewrite signal_column_lookup, lookup_replicate_2 by done.
    f_equal.
    assert (ma_long_col self close !!! i = NaN) as ->; [|apply signal_at_NaN_long].
    unfold ma_long_col. rewrite list_lookup_total_alt, rolling_mean_lookup by done.
    simpl. case_decide; [lia | done].
  - rewrite !lookup_ge_None_2; [done|..].
    + rewrite length_replicate. lia.
    + rewrite length_signal_column. lia.
Qed.

Lemma positions_from_zeros n :
  positions_from (Fin 0) (replicate n (Fin 0)) = replicate n (Fin 0).
Proof. induction n; simpl; [done | by rewrite IHn]. Qed.

(** ** What [generate_signals] writes *)

Lemma iloc_set_set_col i v P d :
  iloc_set i "Position" v (set_col "Position" P d)
  = set_col "Position" (<[i := v]> P) d.
Proof.
  unfold iloc_set. rewrite get_col_set_col. cbn [String.eqb Ascii.eqb Bool.eqb].
  apply set_col_set_col.
Qed.

(** The loop, started at row [k] for [m] rows, rewrites exactly the rows
    [k .. k+m-1] of the position column with the scan of the signals. *)
Lemma position_loop_rows d0 m : forall k cur (P : Series),
  (k + m <= length P)%nat ->
  (k + m <= length (get_col "Signal" d0))%nat ->
  snd (foldl position_loop_body (cur, set_col "Position" P d0) (seq k m))
  = set_col "Position"
      (take k P
       ++ positions_from cur (take m (drop k (get_col "Signal" d0)))
       ++ drop (k + m) P) d0.
Proof.
  induction m as [|m IH]; intros k cur P HP HS.
  - simpl. by rewrite Nat.add_0_r, take_drop.
  - cbn [seq foldl].
    destruct (lookup_lt_is_Some_2 (get_col "Signal" d0) k) as [s Hs]; [lia|].
    destruct (lookup_lt_is_Some_2 P k) as [p Hp]; [lia|].
    unfold position_loop_body at 2.
    assert (iloc_get k "Signal" (set_col "Position" P d0) = s) as ->.
    { unfold iloc_get. rewrite get_col_set_col.
      cbn [String.eqb Ascii.eqb Bool.eqb]. by rewrite Hs. }
    rewrite iloc_set_set_col.
    rewrite IH by (rewrite ?length_insert; lia).
    f_equal.
    rewrite (drop_S _ _ _ Hs). cbn [take positions_from].
    set (cur' := if fl_eqb s (Fin 1) then Fin 1
                 else if fl_eqb s (Fin (-1)) then Fin 0 else cur).
    rewrite (take_S_r (<[k:=cur']> P) k cur')
      by (apply list_lookup_insert_eq; lia).
    rewrite take_insert_ge by lia.
    rewrite drop_insert_lt by lia.
    rewrite <- app_assoc. simpl.
    by replace (k + S m)%nat with (S (k + m)) by lia.
Qed.

Lemma position_loop_spec d0 :
  length (get_col "Signal" d0) = df_len d0 ->
  position_loop (set_scalar "Position" (Fin 0) d0)
  = set_col "Position" (positions_from (Fin 0) (get_col "Signal" d0)) d0.
Proof.
  intros Hlen. unfold position_loop. rewrite df_len_set_scalar.
  unfold set_scalar, assign.
  rewrite position_loop_rows by (rewrite ?length_replicate; lia).
  f_equal. simpl. rewrite drop_0.
  rewrite drop_ge by (rewrite length_replicate; lia).
  rewrite app_nil_r. f_equal. apply take_ge. lia.
Qed.

Lemma ma_name_inj : Inj (=) (=) ma_name.
Proof.
  intros x y H. unfold ma_name in H. cbn [String.append] in H.
  injection H as H. by apply (inj pretty).
Qed.

(** Reading the short average back after both averages are stored: the
    two names differ unless the windows are equal, and then so are the
    columns. *)
Lemma read_ma_short self (d : DataFrame) (rs rl : Series) :
  (short_window self = long_window self -> rs = rl) ->
  get_col (ma_name (short_window self))
    (set_col (ma_name (long_window self)) rl
       (set_col (ma_name (short_window self)) rs d)) = rs.
Proof.
  intros Heq. rewrite !get_col_set_col, String.eqb_refl.
  destruct (String.eqb_spec (ma_name (long_window self))
              (ma_name (short_window self))) as [E|E]; [|done].
  symmetry. apply Heq. symmetry. by apply ma_name_inj.
Qed.

Lemma read_ma_long self (d : DataFrame) (rs rl : Series) :
  get_col (ma_name (long_window self))
    (set_col (ma_name (long_window self)) rl
       (set_col (ma_name (short_window self)) rs d)) = rl.
Proof. by rewrite get_col_set_col, String.eqb_refl. Qed.

Lemma ma_name_not_Signal w : String.eqb (ma_name w) "Signal" = false.
Proof. done. Qed.

Lemma ma_name_not_Position w : String.eqb (ma_name w) "Position" = false.
Proof. done. Qed.

Lemma Signal_not_ma_name w : String.eqb "Signal" (ma_name w) = false.
Proof. done. Qed.

(** The three assignments to [Signal], on a frame that already holds the
    two averages. *)
Lemma signal_assignments (base : DataFrame) (ms ml : string) (rs rl : Series) :
  get_col ms base = rs -> get_col ml base = rl ->
  String.eqb "Signal" ms = false -> String.eqb "Signal" ml = false ->
  (base
   |> set_scalar "Signal" (Fin 0)
   |> assign "Signal"
        (fun data => loc_set (golden_cross ms ml data) (Fin 1)
                       (get_col "Signal" data))
   |> assign "Signal"
        (fun data => loc_set (death_cross ms ml data) (Fin (-1))
                       (get_col "Signal" data)))
  = set_col "Signal" (crossover_signals rs rl (df_len base)) base.
Proof.
  intros Hs Hl Es El.
  unfold set_scalar, assign. rewrite !set_col_set_col. f_equal.
  unfold golden_cross, death_cross, crossover_signals.
  rewrite !get_col_set_col, Es, El, Hs, Hl.
  by cbn [String.eqb Ascii.eqb Bool.eqb].
Qed.

(** The frame [generate_signals] leaves behind, column by column. *)
Lemma generate_signals_frame_eq self d :
  generate_signals_frame self d
  = if (Z.of_nat (df_len d) <? long_window self)%Z
    then set_col "Position" (position_column self (Close d))
           (set_col "Signal" (signal_column self (Close d)) d)
    else set_col "Position" (position_column self (Close d))
           (set_col "Signal" (signal_column self (Close d))
              (set_col (ma_name (long_window self)) (ma_long_col self (Close d))
                 (set_col (ma_name (short_window self))
                    (ma_short_col self (Close d)) d))).
Proof.
  unfold generate_signals_frame.
  destruct (Z.ltb_spec (Z.of_nat (df_len d)) (long_window self)) as [Hlt|Hge].
  - unfold position_column. rewrite signal_column_short by done.
    by rewrite positions_from_zeros.
  - cbv zeta.
    rewrite (signal_assignments _ _ _
               (ma_short_col self (Close d)) (ma_long_col self (Close d))).
    + rewrite position_loop_spec.
      * by rewrite get_col_set_col, String.eqb_refl.
      * rewrite get_col_set_col, String.eqb_refl.
        apply length_crossover_signals; apply length_rolling_mean.
    + apply read_ma_short. unfold ma_short_col, ma_long_col. by intros ->.
    + apply read_ma_long.
    + apply Signal_not_ma_name.
    + apply Signal_not_ma_name.
Qed.

Lemma Close_generate_signals self d : Close (generate_signals_frame self d) = Close d.
Proof. rewrite generate_signals_frame_eq. by case_match. Qed.

Lemma Signal_generate_signals self d :
  get_col "Signal" (generate_signals_frame self d) = signal_column self (Close d).
Proof.
  rewrite generate_signals_frame_eq.
  case_match; rewrite !get_col_set_col; by cbn [String.eqb Ascii.eqb Bool.eqb].
Qed.

Lemma Position_generate_signals self d :
  get_col "Position" (generate_signals_frame self d)
  = position_column self (Close d).
Proof.
  rewrite generate_signals_frame_eq.
  case_match; rewrite !get_col_set_col; by cbn [String.eqb Ascii.eqb Bool.eqb].
Qed.

(** ** What [backtest] does to the store *)

(** [backtest] copies the caller's frame to a fresh reference, lets the
    two stages write into the copy, and hands that reference back twice. *)
Lemma backtest_run np_sqrt self data cap com (h : store) d :
  h !! data = Some d ->
  backtest np_sqrt self data cap com h
  = match _calculate_metrics_frame np_sqrt (equity_frame self d cap com) with
    | inl e => inl e
    | inr m =>
        inr ({| res_data := fresh (dom h);
                res_equity_curve := fresh (dom h);
                res_metrics := m;
                res_initial_capital := cap;
                res_commission := com |},
             <[fresh (dom h) := equity_frame self d cap com]> h)
    end.
Proof.
  intros Hd.
  unfold backtest, BaseStrategy.backtest, generate_signals, _calculate_returns,
    _calculate_metrics, df_copy, update, deref, raise, equity_frame.
  unfold mbind, M_bind, mret, M_ret. rewrite Hd.
  repeat first
    [ rewrite lookup_insert_eq | rewrite insert_insert_eq
    | progress cbv beta iota zeta ].
  by destruct (_calculate_metrics_frame np_sqrt _).
Qed.

Lemma generate_signals_run self data (h : store) d :
  h !! data = Some d ->
  generate_signals self data h
  = inr (data, <[data := generate_signals_frame self d]> h).
Proof.
  intros Hd. unfold generate_signals, update, mbind, M_bind, mret, M_ret.
  by rewrite Hd.
Qed.

(** [iloc[-1]] finds a last row in every column that has a row. *)
Lemma iloc_last_is_Some (xs : Series) :
  (0 < length xs)%nat -> is_Some (iloc_last xs).
Proof.
  intros Hlen. unfold iloc_last.
  destruct xs as [|x xs] using rev_ind; [simpl in Hlen; lia|].
  rewrite last_snoc. by eexists.
Qed.

Lemma length_cumprod_from acc xs : length (cumprod_from acc xs) = length xs.
Proof. revert acc; induction xs; intros; simpl; [done | by rewrite IHxs]. Qed.

Lemma length_np_cumprod xs : length (np_cumprod xs) = length xs.
Proof. destruct xs; simpl; [done | by rewrite length_cumprod_from]. Qed.

Lemma length_cumprod xs : length (cumprod xs) = length xs.
Proof.
  unfold cumprod. rewrite length_zip_with, length_np_cumprod, length_fillna,
    length_fmap. lia.
Qed.

Lemma length_strategy_returns_net close pos com :
  length pos = length close ->
  length (strategy_returns_net close pos com) = length close.
Proof.
  intros Hlen.
  unfold strategy_returns_net, position_lagged, series_abs, diff, fillna.
  repeat first
    [ rewrite length_zip_with | rewrite length_fmap | rewrite length_shift1
    | rewrite length_pct_change ].
  lia.
Qed.

Lemma length_buyhold_cumulative close :
  length (buyhold_cumulative close) = length close.
Proof.
  unfold buyhold_cumulative.
  by rewrite length_cumprod, length_fmap, length_fillna, length_pct_change,
    length_fmap.
Qed.

Lemma length_cumulative_returns close pos com :
  length pos = length close ->
  length (cumulative_returns close pos com) = length close.
Proof.
  intros Hlen. unfold cumulative_returns.
  by rewrite length_cumprod, length_fmap, length_strategy_returns_net.
Qed.

(** The columns of the frame [backtest] computes. *)
Lemma equity_frame_net self d cap com :
  get_col "Strategy_Returns_Net" (equity_frame self d cap com)
  = strategy_returns_net (Close d) (position_column self (Close d)) com.
Proof.
  unfold equity_frame.
  by rewrite returns_net_col, Position_generate_signals, Close_generate_signals.
Qed.

Lemma equity_frame_cumulative self d cap com :
  get_col "Cumulative_Returns" (equity_frame self d cap com)
  = cumulative_returns (Close d) (position_column self (Close d)) com.
Proof.
  unfold equity_frame.
  by rewrite cumulative_returns_col, Position_generate_signals,
    Close_generate_signals.
Qed.

Lemma equity_frame_portfolio self d cap com :
  get_col "Portfolio_Value" (equity_frame self d cap com)
  = portfolio_value (Close d) (position_column self (Close d)) cap com.
Proof.
  unfold equity_frame.
  by rewrite portfolio_value_col, Position_generate_signals,
    Close_generate_signals.
Qed.

Lemma equity_frame_buyhold_cumulative self d cap com :
  get_col "BuyHold_Cumulative" (equity_frame self d cap com)
  = buyhold_cumulative (Close d).
Proof.
  unfold equity_frame.
  by rewrite buyhold_cumulative_col, Close_generate_signals.
Qed.

Lemma equity_frame_buyhold_value self d cap com :
  get_col "BuyHold_Value" (equity_frame self d cap com)
  = buyhold_value (Close d) cap.
Proof.
  unfold equity_frame.
  by rewrite buyhold_value_col, Close_generate_signals.
Qed.

(** [_calculate_metrics] raises only on a frame without rows. *)
Lemma metrics_of_equity_frame np_sqrt self d cap com :
  (0 < df_len d)%nat ->
  exists m, _calculate_metrics_frame np_sqrt (equity_frame self d cap com) = inr m.
Proof.
  intros Hlen. unfold _calculate_metrics_frame.
  rewrite equity_frame_cumulative, equity_frame_buyhold_cumulative.
  destruct (iloc_last_is_Some
              (cumulative_returns (Close d) (position_column self (Close d)) com))
    as [x ->].
  { by rewrite length_cumulative_returns by apply length_position_column. }
  destruct (iloc_last_is_Some (buyhold_cumulative (Close d))) as [y ->].
  { by rewrite length_buyhold_cumulative. }
  by eexists.
Qed.

Lemma metrics_of_empty_frame np_sqrt self d cap com :
  df_len d = 0%nat ->
  _calculate_metrics_frame np_sqrt (equity_frame self d cap com)
  = inl (IndexError "single positional indexer is out-of-bounds").
Proof.
  intros Hlen. unfold _calculate_metrics_frame.
  rewrite equity_frame_cumulative.
  assert (cumulative_returns (Close d) (position_column self (Close d)) com = [])
    as ->; [|done].
  apply length_zero_iff_nil.
  by rewrite length_cumulative_returns by apply length_position_column.
Qed.

(** Both references of the result point to the frame [backtest]
    computed. *)
Lemma backtest_equity_curve np_sqrt self data cap com (h : store) d :
  h !! data = Some d -> (0 < df_len d)%nat ->
  exists r h',
    backtest np_sqrt self data cap com h = inr (r, h')
    /\ h' !! res_equity_curve r = Some (equity_frame self d cap com)
    /\ h' !! res_data r = Some (equity_frame self d cap com).
Proof.
  intros Hd Hlen. rewrite (backtest_run _ _ _ _ _ _ d Hd).
  destruct (metrics_of_equity_frame np_sqrt self d cap com Hlen) as [m ->].
  do 2 eexists. split; [reflexivity|]. simpl.
  by rewrite lookup_insert_eq.
Qed.

(** ** The engine on the examples *)

(** [MovingAverageStrategy(2, 3)] is accepted by the constructor. *)
Lemma init_2_3 : init 2 3 None = inr ma_2_3.
Proof. reflexivity. Qed.

(** Constant prices: the averages are equal on every row, no signal
    fires, and the run reports no trade, no return, a Sharpe ratio of 0
    and no drawdown. *)
Example constant_prices_no_activity :
  let g := generate_signals_frame ma_2_3 constant_rows in
  get_col "Signal" g = replicate 12 (Fin 0)
  /\ get_col "Position" g = replicate 12 (Fin 0)
  /\ (fun m => (fl_red (total_return m), fl_red (sharpe_ratio m),
                fl_red (max_drawdown m), total_trades m))
       <$> metrics_of (backtest sqrt_approx ma_2_3 1%positive 10000 (1 # 1000)
                         {[1%positive := constant_rows]})
     = Some (Fin 0, Fin 0, Fin 0, 0%nat).
Proof. by vm_compute. Qed.

(** One crossing each way: a sell signal while flat, then a buy signal
    that opens the position. *)
Example one_crossing_each_way :
  let g := generate_signals_frame ma_2_3 crossing_rows in
  get_col "Signal" g
  = [Fin 0; Fin 0; Fin 0; Fin 0; Fin (-1); Fin 0; Fin 0; Fin 1; Fin 0]
  /\ get_col "Position" g
     = [Fin 0; Fin 0; Fin 0; Fin 0; Fin 0; Fin 0; Fin 0; Fin 1; Fin 1].
Proof. by vm_compute. Qed.

(** A single entry with a commission of 1%: one commission of 0.01, on
    the row after the buy signal, where the lagged position changes. *)
Example single_entry_commission :
  fl_red <$> get_col "Commission_Cost"
               (equity_frame ma_2_3 crossing_rows 10000 (1 # 100))
  = [NaN; Fin 0; Fin 0; Fin 0; Fin 0; Fin 0; Fin 0; Fin 0; Fin (1 # 100)].
Proof. by vm_compute. Qed.

(** ** Parameter validation (C1) *)

(** C1, as stated, fails: [backtest] has no check of its parameters.
    With an initial capital of -1 and a commission of 2 it raises
    nothing and returns a result. *)
Lemma C1_backtest_accepts_invalid_capital :
  raisesb (backtest sqrt_approx ma_2_3 1%positive (-1) 2 {[1%positive := two_rows]})
  = false.
Proof. vm_compute. reflexivity. Qed.

(** C1, amended.  The constructor rejects every invalid pair of windows
    (short_window < 2, or short_window >= long_window) with a
    [ValueError], and it never sees a price series; it accepts every
    other pair.  [backtest] validates nothing: on a frame with at least
    one row it returns a result that records whatever initial capital and
    commission it was given. *)
Theorem C1_validation :
  (forall short long name,
     (short < 2 \/ long <= short)%Z ->
     exists msg, init short long name = inl (ValueError msg))
  /\ (forall short long name,
        (2 <= short < long)%Z ->
        exists self, init short long name = inr self
                     /\ short_window self = short /\ long_window self = long)
  /\ (forall np_sqrt self data cap com (h : store) d,
        h !! data = Some d -> (0 < df_len d)%nat ->
        exists r h',
          backtest np_sqrt self data cap com h = inr (r, h')
          /\ res_initial_capital r = cap /\ res_commission r = com).
Proof.
  repeat split.
  - intros short long name Hbad. unfold init.
    destruct (Z.geb_spec short long) as [Hge|Hlt]; [by eexists|].
    destruct (Z.ltb_spec short 2) as [Hlt2|Hge2]; [by eexists|]. lia.
  - intros short long name [H2 Hlt]. unfold init.
    destruct (Z.geb_spec short long) as [Hge|_]; [lia|].
    destruct (Z.ltb_spec short 2) as [Hlt2|_]; [lia|].
    by eexists.
  - intros np_sqrt self data cap com h d Hd Hlen.
    rewrite (backtest_run _ _ _ _ _ _ d Hd).
    destruct (metrics_of_equity_frame np_sqrt self d cap com Hlen) as [m ->].
    by do 2 eexists.
Qed.

(** ** Short series (C2) *)

Lemma one_row_columns self d cap com :
  df_len d = 1%nat ->
  strategy_returns_net (Close d) (position_column self (Close d)) com = [NaN]
  /\ cumulative_returns (Close d) (position_column self (Close d)) com = [NaN]
  /\ portfolio_value (Close d) (position_column self (Close d)) cap com = [NaN]
  /\ buyhold_cumulative (Close d) = [Fin (1 + 0)].
Proof.
  intros Hlen. unfold df_len in Hlen.
  by destruct (Close d) as [|c [|]].
Qed.

(** C2, as stated, fails: on a series of one row [backtest] raises
    nothing. *)
Lemma C2_one_row_does_not_raise :
  raisesb (backtest sqrt_approx ma_2_3 1%positive 10000 (1 # 1000)
             {[1%positive := one_row]})
  = false.
Proof. vm_compute. reflexivity. Qed.

(** C2, amended.  The code has no [InsufficientDataError].  On a series
    of one row [backtest] returns a result whose total return, excess
    return and maximum drawdown are NaN, with a buy-and-hold return of
    0, a win rate of 0 and no trades.  On a series without rows the
    [iloc[-1]] of [_calculate_metrics] raises an [IndexError]. *)
Theorem C2_short_series np_sqrt self data cap com (h : store) d :
  h !! data = Some d ->
  (df_len d = 1%nat ->
   exists r h',
     backtest np_sqrt self data cap com h = inr (r, h')
     /\ total_return (res_metrics r) = NaN
     /\ excess_return (res_metrics r) = NaN
     /\ max_drawdown (res_metrics r) = NaN
     /\ buyhold_return (res_metrics r) ≈ Fin 0
     /\ win_rate (res_metrics r) = Fin 0
     /\ total_trades (res_metrics r) = 0%nat)
  /\ (df_len d = 0%nat ->
      exists msg, backtest np_sqrt self data cap com h = inl (IndexError msg)).
Proof.
  intros Hd. rewrite (backtest_run _ _ _ _ _ _ d Hd). split.
  - intros Hlen.
    destruct (one_row_columns self d cap com Hlen) as (Hnet & Hcum & Hpv & Hbh).
    unfold _calculate_metrics_frame.
    rewrite equity_frame_net, equity_frame_cumulative, equity_frame_portfolio,
      equity_frame_buyhold_cumulative, Hnet, Hcum, Hpv, Hbh.
    cbn [iloc_last last dropna List.filter notna isnan negb].
    do 2 eexists. split; [reflexivity|]. cbn. done.
  - intros Hlen. rewrite metrics_of_empty_frame by done. by eexists.
Qed.

Lemma C2_short_series_witness :
  let h : store := {[1%positive := one_row]} in
  exists r h',
    backtest sqrt_approx ma_2_3 1%positive 10000 (1 # 1000) h = inr (r, h')
    /\ total_return (res_metrics r) = NaN
    /\ excess_return (res_metrics r) = NaN
    /\ max_drawdown (res_metrics r) = NaN
    /\ buyhold_return (res_metrics r) ≈ Fin 0
    /\ win_rate (res_metrics r) = Fin 0
    /\ total_trades (res_metrics r) = 0%nat.
Proof.
  intros h.
  apply (C2_short_series sqrt_approx ma_2_3 1%positive 10000 (1 # 1000) h one_row).
  - reflexivity.
  - reflexivity.
Defined.

(** ** Who writes into the caller's frame (C9) *)

(** C9, as stated, fails for signal generation: [generate_signals]
    returns the reference it was given, and the caller's frame, which had
    no [Signal] column, has one afterwards. *)
Lemma C9_generate_signals_writes_into_its_argument :
  exists d',
    generate_signals ma_2_3 1%positive {[1%positive := two_rows]}
    = inr (1%positive, {[1%positive := d']})
    /\ cols two_rows !! "Signal"%string = None
    /\ cols d' !! "Signal"%string = Some [Fin 0; Fin 0]
    /\ cols d' !! "Position"%string = Some [Fin 0; Fin 0].
Proof.
  eexists. split.
  - rewrite (generate_signals_run _ _ _ two_rows) by reflexivity.
    by rewrite insert_singleton_eq.
  - by vm_compute.
Qed.

(** C9, amended.  [backtest] leaves the caller's frame as it was: it
    works on a copy, a new object that its result refers to, and changes
    nothing else in the store.  [generate_signals] is not a pure stage: it
    writes the [Signal] and [Position] columns (and, when there are
    enough rows, the two moving-average columns) into the very frame it
    is given and returns that same frame; the closes and every other
    column stay as they were. *)
Theorem C9_frame_effects :
  (forall np_sqrt self data cap com (h : store) d,
     h !! data = Some d -> (0 < df_len d)%nat ->
     exists r h',
       backtest np_sqrt self data cap com h = inr (r, h')
       /\ h' !! data = Some d
       /\ res_data r <> data
       /\ h !! res_data r = None
       /\ res_equity_curve r = res_data r
       /\ forall l, l <> res_data r -> h' !! l = h !! l)
  /\ (forall self data (h : store) d,
        h !! data = Some d ->
        exists d',
          generate_signals self data h = inr (data, <[data := d']> h)
          /\ Close d' = Close d
          /\ cols d' !! "Signal"%string = Some (signal_column self (Close d))
          /\ cols d' !! "Position"%string = Some (position_column self (Close d))
          /\ forall n : string,
               n <> "Signal"%string -> n <> "Position"%string ->
               n <> ma_name (short_window self) ->
               n <> ma_name (long_window self) ->
               cols d' !! n = cols d !! n).
Proof.
  split.
  - intros np_sqrt self data cap com h d Hd Hlen.
    rewrite (backtest_run _ _ _ _ _ _ d Hd).
    destruct (metrics_of_equity_frame np_sqrt self d cap com Hlen) as [m ->].
    assert (h !! fresh (dom h) = None) as Hfresh.
    { apply not_elem_of_dom, is_fresh. }
    assert (fresh (dom h) <> data) as Hne by congruence.
    do 2 eexists. split; [reflexivity|]. simpl.
    repeat split; try done.
    + by rewrite lookup_insert_ne.
    + intros l Hl. by rewrite lookup_insert_ne.
  - intros self data h d Hd.
    exists (generate_signals_frame self d).
    split; [by apply generate_signals_run|].
    rewrite generate_signals_frame_eq.
    destruct (Z.of_nat (df_len d) <? long_window self)%Z; simpl;
      (repeat split;
       [ by rewrite lookup_insert_ne, lookup_insert_eq
       | by rewrite lookup_insert_eq
       | intros n H1 H2 H3 H4; by rewrite ?lookup_insert_ne ]).
Qed.

(** ** No look-ahead (C3) *)

(** Row [i] of the lagged position is row [i-1] of the position. *)
Lemma take_S_position_lagged i (pos : Series) :
  (i < length pos)%nat ->
  take (S i) (position_lagged pos) = Fin 0 :: fillna (Fin 0) (take i pos).
Proof.
  intros Hi. unfold position_lagged, shift1.
  rewrite take_fillna, take_take.
  replace (S i `min` length pos)%nat with (S i) by lia.
  reflexivity.
Qed.

Lemma strategy_returns_net_row_local close1 close2 (pos1 pos2 : Series) com i :
  length pos1 = length close1 -> length pos2 = length close2 ->
  take (S i) close1 = take (S i) close2 ->
  take i pos1 = take i pos2 ->
  strategy_returns_net close1 pos1 com !! i
  = strategy_returns_net close2 pos2 com !! i.
Proof.
  intros Hl1 Hl2 Hc Hp.
  assert (S i `min` length close1 = S i `min` length close2)%nat as Hmin.
  { by rewrite <- !length_take, Hc. }
  destruct (decide (i < length close1)%nat) as [Hi|Hi].
  - rewrite <- (lookup_take_lt (strategy_returns_net close1 pos1 com) (S i) i)
      by lia.
    rewrite <- (lookup_take_lt (strategy_returns_net close2 pos2 com) (S i) i)
      by lia.
    f_equal. unfold strategy_returns_net.
    rewrite !zip_with_take, <- !fmap_take, !take_series_abs, !take_diff,
      !take_pct_change, <- !fmap_take.
    rewrite !take_S_position_lagged by lia.
    by rewrite Hc, Hp.
  - rewrite !lookup_ge_None_2; [done|..];
      rewrite length_strategy_returns_net by done; lia.
Qed.

(** C3.  The net strategy return of a row has no look-ahead.  In
    [_calculate_returns], row [i] of [Strategy_Returns_Net] is determined
    by the positions of the rows before [i] and the closes of the rows up
    to [i]; and in the whole pipeline, where the positions come from the
    closes, two price series that agree on the rows up to [i] give the
    same net return on every row up to [i], whatever the later closes
    (and the other columns, and the capital) are. *)
Theorem C3_no_look_ahead :
  (forall d1 d2 cap1 cap2 com i,
     length (get_col "Position" d1) = df_len d1 ->
     length (get_col "Position" d2) = df_len d2 ->
     take (S i) (Close d1) = take (S i) (Close d2) ->
     take i (get_col "Position" d1) = take i (get_col "Position" d2) ->
     get_col "Strategy_Returns_Net" (_calculate_returns_frame d1 cap1 com) !! i
     = get_col "Strategy_Returns_Net" (_calculate_returns_frame d2 cap2 com) !! i)
  /\ (forall self d1 d2 cap1 cap2 com i k,
        take (S i) (Close d1) = take (S i) (Close d2) ->
        (k <= i)%nat ->
        get_col "Strategy_Returns_Net" (equity_frame self d1 cap1 com) !! k
        = get_col "Strategy_Returns_Net" (equity_frame self d2 cap2 com) !! k).
Proof.
  split.
  - intros d1 d2 cap1 cap2 com i Hl1 Hl2 Hc Hp.
    rewrite !returns_net_col.
    by apply strategy_returns_net_row_local.
  - intros self d1 d2 cap1 cap2 com i k Hc Hk.
    rewrite !equity_frame_net.
    rewrite <- (lookup_take_lt (strategy_returns_net (Close d1) _ _) (S i) k)
      by lia.
    rewrite <- (lookup_take_lt (strategy_returns_net (Close d2) _ _) (S i) k)
      by lia.
    by rewrite !strategy_returns_net_take, !take_position_column, Hc.
Qed.

(** Two runs on closes that differ from row 3 on: the net return of
    row 2 is the same. *)
Lemma C3_no_look_ahead_witness :
  get_col "Strategy_Returns_Net"
    (equity_frame ma_2_3 (mkDataFrame [10; 12; 11; 15; 9] ∅) 10000 (1 # 1000))
    !! 2%nat
  = get_col "Strategy_Returns_Net"
      (equity_frame ma_2_3 (mkDataFrame [10; 12; 11; 7; 40] ∅) 500 (1 # 1000))
      !! 2%nat.
Proof.
  apply (proj2 C3_no_look_ahead ma_2_3 _ _ 10000 500 (1 # 1000) 2%nat 2%nat);
    [reflexivity | lia].
Defined.

(** ** The first row of the two equity curves (C10) *)

Lemma cumprod_cons_NaN xs : cumprod (NaN :: xs) !! 0%nat = Some NaN.
Proof. reflexivity. Qed.

(** C10.  On a series with at least one row, the first row of the
    strategy's equity curve is NaN, not the initial capital: the net
    return of row 0 is NaN and so are [Cumulative_Returns] and
    [Portfolio_Value] there.  The buy-and-hold curve starts at the
    initial capital, because the NaN of the first market return is
    replaced by 0 for it. *)
Theorem C10_first_row self d cap com :
  (0 < df_len d)%nat ->
  let r := equity_frame self d cap com in
  get_col "Strategy_Returns_Net" r !! 0%nat = Some NaN
  /\ get_col "Cumulative_Returns" r !! 0%nat = Some NaN
  /\ get_col "Portfolio_Value" r !! 0%nat = Some NaN
  /\ exists v, get_col "BuyHold_Value" r !! 0%nat = Some (Fin v) /\ v == cap.
Proof.
  intros Hlen r. subst r.
  rewrite equity_frame_net, equity_frame_cumulative, equity_frame_portfolio,
    equity_frame_buyhold_value.
  unfold df_len in Hlen.
  pose proof (length_position_column self (Close d)) as Hpos.
  destruct (Close d) as [|c close]; [simpl in Hlen; lia|].
  destruct (position_column self (c :: close)) as [|p pos]; [done|].
  repeat split.
  exists (cap * (1 + 0)). split; [reflexivity | ring].
Qed.

Lemma C10_first_row_witness :
  let r := equity_frame ma_2_3 crossing_rows 10000 (1 # 1000) in
  get_col "Strategy_Returns_Net" r !! 0%nat = Some NaN
  /\ get_col "Cumulative_Returns" r !! 0%nat = Some NaN
  /\ get_col "Portfolio_Value" r !! 0%nat = Some NaN
  /\ exists v, get_col "BuyHold_Value" r !! 0%nat = Some (Fin v) /\ v == 10000.
Proof.
  apply (C10_first_row ma_2_3 crossing_rows 10000 (1 # 1000)).
  vm_compute. lia.
Defined.

(** ** Numeric equality of floating-point values *)

#[export] Instance fl_eq_equivalence : Equivalence fl_eq.
Proof.
  split.
  - intros [x| | |]; simpl; done.
  - intros [x| | |] [y| | |]; simpl; done.
  - intros [x| | |] [y| | |] [z| | |]; simpl; try done.
    intros H1 H2. by rewrite H1.
Qed.

#[export] Instance inf_of_sign_proper : Proper (eq ==> fl_eq) inf_of_sign.
Proof. intros c ? <-. by destruct c. Qed.

#[export] Instance fl_mul_proper : Proper (fl_eq ==> fl_eq ==> fl_eq) fl_mul.
Proof.
  intros [x| | |] [x'| | |] Hx [y| | |] [y'| | |] Hy; simpl in *; try done.
  - by rewrite Hx, Hy.
  - by rewrite Hx.
  - by rewrite Hx.
  - by rewrite Hy.
  - by rewrite Hy.
Qed.

Lemma fl_mul_1_l a : fl_mul (Fin 1) a ≈ a.
Proof. destruct a; simpl; try done. ring. Qed.

Lemma fl_mul_1_r a : fl_mul a (Fin 1) ≈ a.
Proof. destruct a; simpl; try done. ring. Qed.

Lemma foldl_fl_mul_proper a b (xs : Series) :
  a ≈ b -> foldl fl_mul a xs ≈ foldl fl_mul b xs.
Proof.
  revert a b; induction xs as [|x xs IH]; intros a b Hab; simpl; [done|].
  apply IH. by rewrite Hab.
Qed.

(** ** The cumulative product (C4) *)

Lemma cumprod_from_lookup acc (xs : Series) i :
  (i < length xs)%nat ->
  cumprod_from acc xs !! i = Some (foldl fl_mul acc (take (S i) xs)).
Proof.
  revert acc i; induction xs as [|x xs IH]; intros acc i Hi; simpl in *; [lia|].
  destruct i as [|i]; simpl; [done|].
  by rewrite IH by lia.
Qed.

Lemma np_cumprod_lookup (xs : Series) i :
  (i < length xs)%nat ->
  exists v, np_cumprod xs !! i = Some v
            /\ v ≈ foldl fl_mul (Fin 1) (take (S i) xs).
Proof.
  intros Hi. destruct xs as [|x xs]; simpl in *; [lia|].
  destruct i as [|i].
  - exists x. split; [done|].
    change (x ≈ fl_mul (Fin 1) x). symmetry. apply fl_mul_1_l.
  - cbn [np_cumprod lookup list_lookup].
    rewrite cumprod_from_lookup by lia.
    eexists. split; [done|].
    change (foldl fl_mul x (take (S i) xs)
            ≈ foldl fl_mul (fl_mul (Fin 1) x) (take (S i) xs)).
    apply foldl_fl_mul_proper. symmetry. apply fl_mul_1_l.
Qed.

(** Filling the NaN rows with 1 or leaving them out gives the same
    product. *)
Lemma foldl_fl_mul_fillna a (xs : Series) :
  foldl fl_mul a (fillna (Fin 1) xs) ≈ foldl fl_mul a (dropna xs).
Proof.
  revert a; induction xs as [|x xs IH]; intros a; simpl; [done|].
  destruct x; simpl; try apply IH.
  etransitivity; [|apply IH].
  apply foldl_fl_mul_proper, fl_mul_1_r.
Qed.

Lemma cumprod_lookup (xs : Series) i x :
  xs !! i = Some x ->
  exists v, cumprod xs !! i = Some v
            /\ (x = NaN -> v = NaN)
            /\ (x <> NaN -> v ≈ product_upto xs i).
Proof.
  intros Hx. pose proof (lookup_lt_Some _ _ _ Hx) as Hi.
  unfold cumprod. rewrite lookup_zip_with, list_lookup_fmap, Hx. simpl.
  destruct (np_cumprod_lookup (fillna (Fin 1) xs) i) as (v & -> & Hv).
  { by rewrite length_fillna. }
  simpl. eexists. split; [done|]. split.
  - by intros ->.
  - intros Hne.
    assert (isnan x = false) as -> by (by destruct x).
    rewrite Hv, take_fillna. apply foldl_fl_mul_fillna.
Qed.

Lemma dropna_fl_add_1 (xs : Series) :
  dropna (fl_add (Fin 1) <$> xs) = fl_add (Fin 1) <$> dropna xs.
Proof.
  unfold dropna. induction xs as [|x xs IH]; simpl; [done|].
  destruct x; simpl; try f_equal; exact IH.
Qed.

(** C4, as stated, fails on row 0.  The net return of row 0 is never
    defined, so the product seeded at 1 has no factor there and the
    identity would put the initial capital on row 0; the portfolio value
    of row 0 is NaN.  (Nor can the undefined factor be kept in the
    product: then the right-hand side is NaN on row 1, where the
    portfolio value is a number.) *)
Lemma C4_row_0_is_not_the_capital :
  let r := equity_frame ma_2_3 crossing_rows 10000 (1 # 1000) in
  let net := get_col "Strategy_Returns_Net" r in
  get_col "Portfolio_Value" r !! 0%nat = Some NaN
  /\ fl_mul (Fin 10000) (return_product net 0) = Fin 10000
  /\ fl_red <$> get_col "Portfolio_Value" r !! 1%nat = Some (Fin 10000)
  /\ fl_mul (Fin 10000) (plain_product net 1) = NaN.
Proof. by vm_compute. Qed.

(** C4, amended.  The cumulative-return identity holds on the rows where
    the net return is defined: there the portfolio value is the initial
    capital times the product over the defined rows [k <= i] of
    [1 + Strategy_Returns_Net[k]], the product starting from 1.  On a row
    where the net return is NaN, which row 0 always is, the portfolio
    value is NaN.  This holds for every frame, every initial capital and
    every commission. *)
Theorem C4_cumulative_return_identity d cap com i x :
  let r := _calculate_returns_frame d cap com in
  get_col "Strategy_Returns_Net" r !! i = Some x ->
  exists v,
    get_col "Portfolio_Value" r !! i = Some v
    /\ (x = NaN -> v = NaN)
    /\ (x <> NaN ->
        v ≈ fl_mul (Fin cap)
              (return_product (get_col "Strategy_Returns_Net" r) i)).
Proof.
  intros r Hx. subst r.
  rewrite portfolio_value_col. rewrite returns_net_col in Hx |- *.
  unfold portfolio_value, cumulative_returns.
  set (net := strategy_returns_net _ _ _) in *.
  destruct (cumprod_lookup (fl_add (Fin 1) <$> net) i (fl_add (Fin 1) x))
    as (c & Hc & Hnan & Hdef).
  { by rewrite list_lookup_fmap, Hx. }
  exists (fl_mul (Fin cap) c). rewrite list_lookup_fmap, Hc. split; [done|].
  split.
  - intros ->. by rewrite Hnan.
  - intros Hne. apply fl_mul_proper; [done|].
    rewrite Hdef by (by destruct x).
    unfold product_upto, return_product.
    by rewrite <- fmap_take, dropna_fl_add_1.
Qed.

Lemma C4_cumulative_return_identity_witness :
  let r := _calculate_returns_frame
             (generate_signals_frame ma_2_3 crossing_rows) 10000 (1 # 1000) in
  exists v,
    get_col "Portfolio_Value" r !! 8%nat = Some v
    /\ (Fin (-30 # 30000) = NaN -> v = NaN)
    /\ (Fin (-30 # 30000) <> NaN ->
        v ≈ fl_mul (Fin 10000)
              (return_product (get_col "Strategy_Returns_Net" r) 8)).
Proof.
  apply (C4_cumulative_return_identity
           (generate_signals_frame ma_2_3 crossing_rows) 10000 (1 # 1000) 8
           (Fin (-30 # 30000))).
  vm_compute. reflexivity.
Defined.

(** ** Positions follow the signals (C5) *)

Lemma positions_from_lookup_0 cur s (sig : Series) :
  positions_from cur (s :: sig) !! 0%nat = Some (position_step cur s).
Proof. reflexivity. Qed.

Lemma positions_from_lookup_S cur (sig : Series) i p s :
  positions_from cur sig !! i = Some p ->
  sig !! S i = Some s ->
  positions_from cur sig !! S i = Some (position_step p s).
Proof.
  revert cur i; induction sig as [|s0 sig IH]; intros cur i Hp Hs; [done|].
  destruct i as [|i].
  - destruct sig as [|s1 sig]; [done|].
    simpl in Hp, Hs. by simplify_eq.
  - simpl in Hp, Hs |- *. by apply IH.
Qed.

Lemma positions_from_binary cur (sig : Series) :
  cur = Fin 0 \/ cur = Fin 1 ->
  Forall (fun p => p = Fin 0 \/ p = Fin 1) (positions_from cur sig).
Proof.
  revert cur; induction sig as [|s sig IH]; intros cur Hcur; simpl; [done|].
  assert (position_step cur s = Fin 0 \/ position_step cur s = Fin 1) as Hstep.
  { unfold position_step. destruct (fl_eqb s (Fin 1)); [by right|].
    destruct (fl_eqb s (Fin (-1))); [by left | done]. }
  constructor; [done | by apply IH].
Qed.

Lemma positions_from_at_signal cur (sig : Series) i s :
  sig !! i = Some s ->
  exists prev, positions_from cur sig !! i = Some (position_step prev s).
Proof.
  intros Hs. destruct i as [|i].
  - destruct sig as [|s0 sig]; [done|]. simpl in Hs. simplify_eq.
    by eexists.
  - destruct (lookup_lt_is_Some_2 (positions_from cur sig) i) as [p Hp].
    { rewrite length_positions_from.
      apply lookup_lt_Some in Hs. lia. }
    exists p. by apply positions_from_lookup_S.
Qed.

Lemma positions_from_constant cur (sig : Series) a b :
  (a <= b)%nat -> (b < length sig)%nat ->
  (forall j, (a < j <= b)%nat -> sig !! j = Some (Fin 0)) ->
  positions_from cur sig !! b = positions_from cur sig !! a.
Proof.
  intros Hab Hb Hzero. induction b as [|b IH]; [by replace a with 0%nat by lia|].
  destruct (decide (a = S b)) as [->|Hne]; [done|].
  rewrite <- IH by (try lia; intros j Hj; apply Hzero; lia).
  destruct (lookup_lt_is_Some_2 (positions_from cur sig) b) as [p Hp].
  { rewrite length_positions_from. lia. }
  rewrite Hp. apply (positions_from_lookup_S _ _ _ p (Fin 0)); [done|].
  apply Hzero. lia.
Qed.

Lemma positions_from_before_signals (sig : Series) i :
  (i < length sig)%nat ->
  (forall j, (j <= i)%nat -> sig !! j = Some (Fin 0)) ->
  positions_from (Fin 0) sig !! i = Some (Fin 0).
Proof.
  intros Hi Hzero.
  rewrite (positions_from_constant (Fin 0) sig 0 i); [|lia|done|].
  - destruct sig as [|s sig]; [simpl in Hi; lia|].
    specialize (Hzero 0%nat ltac:(lia)). simpl in Hzero. by simplify_eq.
  - intros j Hj. apply Hzero. lia.
Qed.

Lemma signal_at_ternary s1 l1 s0 l0 :
  signal_at s1 l1 s0 l0 = Fin 0 \/ signal_at s1 l1 s0 l0 = Fin 1
  \/ signal_at s1 l1 s0 l0 = Fin (-1).
Proof.
  unfold signal_at. destruct (_ && _); [by right; right|].
  destruct (_ && _); [by right; left | by left].
Qed.

Lemma signal_column_ternary self close i s :
  signal_column self close !! i = Some s ->
  s = Fin 0 \/ s = Fin 1 \/ s = Fin (-1).
Proof.
  intros Hs. pose proof (lookup_lt_Some _ _ _ Hs) as Hi.
  rewrite length_signal_column in Hi.
  rewrite signal_column_lookup in Hs by done. simplify_eq.
  apply signal_at_ternary.
Qed.

(** A position taken on row [a] is held as long as no opposite signal
    arrives. *)
Lemma positions_from_held cur (sig : Series) a b (s opposite : fl) :
  (forall j x, sig !! j = Some x -> x = Fin 0 \/ x = Fin 1 \/ x = Fin (-1)) ->
  (s = Fin 1 /\ opposite = Fin (-1)) \/ (s = Fin (-1) /\ opposite = Fin 1) ->
  sig !! a = Some s ->
  (a <= b)%nat -> (b < length sig)%nat ->
  (forall j, (a < j <= b)%nat -> sig !! j <> Some opposite) ->
  positions_from cur sig !! b = Some (position_step cur s).
Proof.
  intros Htern Hs Ha Hab Hb Hnone. induction b as [|b IH].
  - replace a with 0%nat in * by lia.
    destruct sig as [|s0 sig]; [done|]. simpl in Ha. by simplify_eq.
  - destruct (decide (a = S b)) as [->|Hne].
    + destruct (positions_from_at_signal cur sig (S b) s Ha) as [prev ->].
      f_equal. by destruct Hs as [[-> _]|[-> _]].
    + destruct (lookup_lt_is_Some_2 sig (S b)) as [x Hx]; [done|].
      rewrite (positions_from_lookup_S cur sig b _ x
                 (IH ltac:(lia) ltac:(lia)
                    ltac:(intros j Hj; apply Hnone; lia)) Hx).
      f_equal.
      assert (x <> opposite) as Hopp.
      { intros ->. by apply (Hnone (S b) ltac:(lia)). }
      destruct Hs as [[Hs1 Hs2]|[Hs1 Hs2]]; subst s opposite;
        destruct (Htern _ _ Hx) as [Hx0|[Hx0|Hx0]]; subst x; done.
Qed.

(** C5.  The position column is a right-continuous step function of the
    signal column, with values 0 and 1 only: it is 1 on a row with a buy
    signal and 0 on a row with a sell signal (on that very row), it is 0
    on every row before the first signal, and between two rows it does
    not change unless a non-zero signal lies after the first and up to
    the second; it is 1 from a buy signal up to the row before the next
    sell signal, and 0 from a sell signal up to the row before the next
    buy signal. *)
Theorem C5_position_step_function self d :
  let g := generate_signals_frame self d in
  let sig := get_col "Signal" g in
  let pos := get_col "Position" g in
  length sig = df_len d /\ length pos = df_len d
  /\ (forall i p, pos !! i = Some p -> p = Fin 0 \/ p = Fin 1)
  /\ (forall i, sig !! i = Some (Fin 1) -> pos !! i = Some (Fin 1))
  /\ (forall i, sig !! i = Some (Fin (-1)) -> pos !! i = Some (Fin 0))
  /\ (forall i, (i < df_len d)%nat ->
        (forall j, (j <= i)%nat -> sig !! j = Some (Fin 0)) ->
        pos !! i = Some (Fin 0))
  /\ (forall a b, (a <= b)%nat -> (b < df_len d)%nat ->
        (forall j, (a < j <= b)%nat -> sig !! j = Some (Fin 0)) ->
        pos !! b = pos !! a)
  /\ (forall a b, sig !! a = Some (Fin 1) ->
        (a <= b)%nat -> (b < df_len d)%nat ->
        (forall j, (a < j <= b)%nat -> sig !! j <> Some (Fin (-1))) ->
        pos !! b = Some (Fin 1))
  /\ (forall a b, sig !! a = Some (Fin (-1)) ->
        (a <= b)%nat -> (b < df_len d)%nat ->
        (forall j, (a < j <= b)%nat -> sig !! j <> Some (Fin 1)) ->
        pos !! b = Some (Fin 0)).
Proof.
  intros g sig pos. subst g sig pos.
  rewrite Signal_generate_signals, Position_generate_signals.
  unfold position_column, df_len.
  pose proof (length_signal_column self (Close d)) as Hlen.
  set (sig := signal_column self (Close d)) in *.
  split; [done|]. split; [by rewrite length_positions_from|].
  split; [|split; [|split; [|split; [|split; [|split]]]]].
  - intros i p Hp.
    by apply (Forall_lookup_1 _ _ _ _ (positions_from_binary (Fin 0) sig (or_introl eq_refl)) Hp).
  - intros i Hs. by destruct (positions_from_at_signal (Fin 0) sig i _ Hs) as [prev ->].
  - intros i Hs. by destruct (positions_from_at_signal (Fin 0) sig i _ Hs) as [prev ->].
  - intros i Hi Hzero. apply positions_from_before_signals; [lia | done].
  - intros a b Hab Hb Hzero. apply positions_from_constant; [done | lia | done].
  - intros a b Ha Hab Hb Hnone.
    apply (positions_from_held (Fin 0) sig a b (Fin 1) (Fin (-1)));
      try done; [apply signal_column_ternary | by left | lia].
  - intros a b Ha Hab Hb Hnone.
    apply (positions_from_held (Fin 0) sig a b (Fin (-1)) (Fin 1));
      try done; [apply signal_column_ternary | by right | lia].
Qed.

(** ** The crossover signals (C6) *)

Lemma fl_cmp_NaN_l a : fl_cmp NaN a = None.
Proof. done. Qed.






Lemma signal_at_no_previous s1 l1 s0 l0 :
  s0 = NaN \/ l0 = NaN -> signal_at s1 l1 s0 l0 = Fin 0.
Proof.
  intros Hprev. unfold signal_at, fl_leb, fl_geb.
  assert (fl_cmp s0 l0 = None) as ->.
  { destruct Hprev as [->| ->]; [done | apply fl_cmp_NaN_r]. }
  by rewrite !andb_false_r.
Qed.

(** The rows of the two averages that the signal of row [i] compares. *)
Lemma signal_column_row self close i :
  (i < length close)%nat ->
  signal_column self close !! i
  = Some (signal_at (ma_short_col self close !!! i) (ma_long_col self close !!! i)
            (if i is S j then ma_short_col self close !!! j else NaN)
            (if i is S j then ma_long_col self close !!! j else NaN)).
Proof.
  intros Hi. rewrite signal_column_lookup by done.
  destruct i as [|j].
  - by rewrite !lookup_total_shift1_0.
  - rewrite !lookup_total_shift1_S; [done|..];
      unfold ma_long_col, ma_short_col; rewrite length_rolling_mean; lia.
Qed.



(** ** The Sharpe ratio (C7) *)




Lemma inject_Z_of_nat_nonzero n : (0 < n)%nat -> ~ inject_Z (Z.of_nat n) == 0.
Proof.
  intros Hn H. unfold Qeq in H. simpl in H. lia.
Qed.

Lemma fl_div_of_nat s n :
  (0 < n)%nat ->
  fl_div (Fin s) (of_nat n) = Fin (s / inject_Z (Z.of_nat n)).
Proof.
  intros Hn. unfold of_nat. simpl.
  destruct (Qeq_bool (inject_Z (Z.of_nat n)) 0) eqn:E; [|done].
  apply Qeq_bool_eq in E. by apply inject_Z_of_nat_nonzero in E.
Qed.






(** ** The maximum drawdown (C8) *)







Lemma nondecreasing_cons x y qs :
  nondecreasing (x :: y :: qs) <-> x <= y /\ nondecreasing (y :: qs).
Proof. done. Qed.

Lemma nondecreasing_head x x' qs :
  x == x' -> nondecreasing (x :: qs) <-> nondecreasing (x' :: qs).
Proof. intros Hx. destruct qs as [|y qs]; [done|]. simpl. by rewrite Hx. Qed.

Lemma finite_values_cons_Fin q xs :
  finite_values (Fin q :: xs) = q :: finite_values xs.
Proof. done. Qed.

Lemma finite_values_cons_NaN xs : finite_values (NaN :: xs) = finite_values xs.
Proof. done. Qed.

Lemma expanding_max_from_cons best x xs :
  expanding_max_from best (x :: xs)
  = default NaN (max_step best x) :: expanding_max_from (max_step best x) xs.
Proof. done. Qed.

Lemma drawdown_cons x (xs : Series) p (ps : Series) :
  zip_with fl_div (zip_with fl_sub (x :: xs) (p :: ps)) (p :: ps)
  = fl_div (fl_sub x p) p :: zip_with fl_div (zip_with fl_sub xs ps) ps.
Proof. done. Qed.

Lemma drawdown_Fin q M :
  ~ M == 0 ->
  fl_div (fl_sub (Fin q) (Fin M)) (Fin M) = Fin ((q - M) / M).
Proof.
  intros HM. simpl. destruct (Qeq_bool M 0) eqn:E; [|done].
  by apply Qeq_bool_eq in E.
Qed.

Lemma dropna_cons_Fin q xs : dropna (Fin q :: xs) = Fin q :: dropna xs.
Proof. done. Qed.

Lemma dropna_cons_NaN xs : dropna (NaN :: xs) = dropna xs.
Proof. done. Qed.

(** The drawdowns after a positive peak [M]: none is positive, and all
    are zero exactly when the values never fall below the running
    peak. *)
Lemma drawdown_after_peak M (xs : Series) :
  0 < M -> Forall fin_or_nan xs ->
  let peak := expanding_max_from (Some (Fin M)) xs in
  let dd := dropna (zip_with fl_div (zip_with fl_sub xs peak) peak) in
  Forall nonpositive dd
  /\ (Forall (fun v => v ≈ Fin 0) dd <-> nondecreasing (M :: finite_values xs)).
Proof.
  intros HM Hxs. revert M HM.
  induction Hxs as [|x xs Hx Hxs IH]; intros M HM; [done|].
  cbv zeta in IH |- *. rewrite expanding_max_from_cons.
  destruct x as [q| | |]; try done.
  - rewrite finite_values_cons_Fin.
    set (M' := if fl_ltb (Fin M) (Fin q) then q else M).
    assert (max_step (Some (Fin M)) (Fin q) = Some (Fin M')) as ->.
    { unfold max_step, fl_max, M'. simpl. by destruct (fl_ltb (Fin M) (Fin q)). }
    assert (0 < M' /\ q <= M' /\ (q == M' <-> M <= q)
            /\ (M <= q -> M' == q)) as (HM' & Hq & Heq & HM'q).
    { unfold M', fl_ltb, fl_cmp.
      destruct (Qcompare_spec M q) as [E|E|E]; simpl;
        (split; [lra | split; [lra | split; [split; intros ?; lra | intros ?; lra]]]). }
    cbn [default from_option id]. rewrite drawdown_cons, drawdown_Fin by lra.
    rewrite dropna_cons_Fin.
    destruct (IH M' HM') as [IHle IHeq]. split.
    + constructor; [|done]. eexists. split; [done|].
      apply Qle_shift_div_r; lra.
    + rewrite Forall_cons, IHeq, nondecreasing_cons.
      change (Fin ((q - M') / M') ≈ Fin 0) with ((q - M') / M' == 0).
      split.
      * intros [Hz Hnd].
        assert (q == M') as HqM'.
        { assert ((q - M') / M' * M' == 0 * M') as H by (by rewrite Hz).
          rewrite Qmult_0_l in H. field_simplify in H; lra. }
        split; [by apply Heq|]. by rewrite (nondecreasing_head q M').
      * intros [HMq Hnd]. split.
        -- rewrite (HM'q HMq). field. lra.
        -- rewrite (nondecreasing_head M' q); [done | by apply HM'q].
  - rewrite finite_values_cons_NaN.
    change (max_step (Some (Fin M)) NaN) with (Some (Fin M)).
    cbn [default from_option id]. rewrite drawdown_cons.
    change (fl_div (fl_sub NaN (Fin M)) (Fin M)) with NaN.
    rewrite dropna_cons_NaN. by apply IH.
Qed.

Lemma fl_leb_Fin a b : fl_leb (Fin a) (Fin b) = true <-> a <= b.
Proof.
  unfold fl_leb, fl_cmp.
  destruct (Qcompare_spec a b); split; (done || lra).
Qed.

Lemma fl_eqb_Fin a b : fl_eqb (Fin a) (Fin b) = true <-> a == b.
Proof.
  unfold fl_eqb, fl_cmp.
  destruct (Qcompare_spec a b); split; (done || lra).
Qed.

(** The minimum of non-positive numbers is non-positive, and is zero
    exactly when all of them are. *)
Lemma foldl_fl_min_nonpositive a (r : Series) :
  a <= 0 -> Forall nonpositive r ->
  exists m, foldl fl_min (Fin a) r = Fin m /\ m <= 0
            /\ (m == 0 <-> a == 0 /\ Forall (fun v => v ≈ Fin 0) r).
Proof.
  intros Ha Hr. revert a Ha.
  induction Hr as [|x r (q & -> & Hq) Hr IH]; intros a Ha.
  - exists a. repeat split; try done. by intros [? _].
  - cbn [foldl].
    set (a' := if fl_ltb (Fin q) (Fin a) then q else a).
    assert (fl_min (Fin a) (Fin q) = Fin a') as ->.
    { unfold fl_min, a'. by destruct (fl_ltb (Fin q) (Fin a)). }
    assert (a' <= 0 /\ (a' == 0 <-> a == 0 /\ q == 0)) as [Ha' Ha'0].
    { unfold a', fl_ltb, fl_cmp.
      destruct (Qcompare_spec q a) as [E|E|E]; simpl;
        (split; [lra | split; [intros ?; split; lra | intros [? ?]; lra]]). }
    destruct (IH a' Ha') as (m & Hm & Hm0 & Hiff).
    exists m. split; [done|]. split; [done|].
    rewrite Hiff, Ha'0, Forall_cons. simpl. tauto.
Qed.

(** The drawdowns of a series whose first defined value is positive:
    the first is zero, none is positive, and all are zero exactly when
    the defined values never decrease. *)
Lemma drawdown_from_start (pv : Series) q1 rest :
  Forall fin_or_nan pv -> finite_values pv = q1 :: rest -> 0 < q1 ->
  exists z r,
    dropna (zip_with fl_div (zip_with fl_sub pv (expanding_max pv))
              (expanding_max pv)) = Fin z :: r
    /\ z == 0 /\ Forall nonpositive r
    /\ (Forall (fun v => v ≈ Fin 0) r <-> nondecreasing (finite_values pv)).
Proof.
  intros Hpv. unfold expanding_max.
  induction Hpv as [|x xs Hx Hxs IH]; intros Hfin Hq1; [done|].
  rewrite expanding_max_from_cons.
  destruct x as [q| | |]; try done.
  - rewrite finite_values_cons_Fin in Hfin |- *. simplify_eq.
    change (max_step None (Fin q1)) with (Some (Fin q1)).
    cbn [default from_option id]. rewrite drawdown_cons, drawdown_Fin by lra.
    rewrite dropna_cons_Fin.
    destruct (drawdown_after_peak q1 xs Hq1 Hxs) as [Hle Heq].
    do 2 eexists. split; [done|]. split; [field; lra|]. done.
  - rewrite finite_values_cons_NaN in Hfin |- *.
    change (max_step None NaN) with (@None fl).
    cbn [default from_option id]. rewrite drawdown_cons.
    change (fl_div (fl_sub NaN NaN) NaN) with NaN.
    rewrite dropna_cons_NaN. by apply IH.
Qed.

(** For a series whose values are finite or NaN and whose first defined
    value is positive, the maximum drawdown is at most 0, and is 0
    exactly when the defined values never decrease. *)
Lemma max_drawdown_sign (pv : Series) q1 rest :
  Forall fin_or_nan pv -> finite_values pv = q1 :: rest -> 0 < q1 ->
  fl_leb (_calculate_max_drawdown pv) (Fin 0) = true
  /\ (fl_eqb (_calculate_max_drawdown pv) (Fin 0) = true
      <-> nondecreasing (finite_values pv)).
Proof.
  intros Hpv Hfin Hq1.
  unfold _calculate_max_drawdown, series_min.
  destruct (drawdown_from_start pv q1 rest Hpv Hfin Hq1)
    as (z & r & -> & Hz & Hle & Heq).
  destruct (foldl_fl_min_nonpositive z r ltac:(lra) Hle) as (m & -> & Hm & Hm0).
  rewrite fl_leb_Fin, fl_eqb_Fin, Hm0, Heq. tauto.
Qed.

(** ** Equity curves of well-formed inputs *)



Lemma Forall_zip_with_closed {A B C} (P : A -> Prop) (Q : B -> Prop)
    (R : C -> Prop) (f : A -> B -> C) xs ys :
  (forall x y, P x -> Q y -> R (f x y)) ->
  Forall P xs -> Forall Q ys -> Forall R (zip_with f xs ys).
Proof.
  intros Hf Hxs. revert ys.
  induction Hxs as [|x xs Hx Hxs IH]; intros ys Hys; [done|].
  destruct Hys as [|y ys Hy Hys]; [done|].
  simpl. constructor; [by apply Hf | by apply IH].
Qed.

Lemma Forall_shift1 (P : fl -> Prop) xs :
  P NaN -> Forall P xs -> Forall P (shift1 xs).
Proof. intros HP Hxs. unfold shift1. apply Forall_take. by constructor. Qed.

Lemma fl_sub_fin_or_nan x y : fin_or_nan x -> fin_or_nan y -> fin_or_nan (fl_sub x y).
Proof. by destruct x, y. Qed.




Lemma fl_div_fin_or_nan x y : fin_or_nan x -> nonzero_or_nan y -> fin_or_nan (fl_div x y).
Proof.
  destruct x as [a| | |], y as [b| | |]; try done. simpl. intros _ Hb.
  destruct (Qeq_bool b 0) eqn:E; [|done]. by apply Qeq_bool_eq in E.
Qed.

Lemma pct_change_fin_or_nan (close : list Q) :
  Forall (fun c => ~ c == 0) close ->
  Forall fin_or_nan (pct_change (Fin <$> close)).
Proof.
  intros Hclose. unfold pct_change. apply Forall_fmap.
  assert (Forall nonzero_or_nan (Fin <$> close)) as Hnz.
  { apply Forall_fmap. by eapply Forall_impl. }
  assert (Forall fin_or_nan (Fin <$> close)) as Hfin.
  { apply Forall_fmap, Forall_true. done. }
  eapply Forall_impl.
  - apply (Forall_zip_with_closed fin_or_nan nonzero_or_nan fin_or_nan);
      [apply fl_div_fin_or_nan | done | by apply Forall_shift1].
  - intros x Hx. by apply fl_sub_fin_or_nan.
Qed.











(** * Further properties of the code *)

(** ** Buy and hold *)

Lemma dropna_all_defined (xs : Series) :
  Forall (fun x => x <> NaN) xs -> dropna xs = xs.
Proof.
  induction 1 as [|x xs Hx _ IH]; [done|].
  unfold dropna in *. simpl. destruct x; simpl; try done; by rewrite IH.
Qed.

Lemma fl_eq_Fin_r v q : v ≈ Fin q -> exists v', v = Fin v' /\ v' == q.
Proof. destruct v; try done. intros H. by eexists. Qed.

Lemma Qeq_bool_nonzero q : ~ q == 0 -> Qeq_bool q 0 = false.
Proof.
  intros Hq. destruct (Qeq_bool q 0) eqn:E; [|done]. by apply Qeq_bool_eq in E.
Qed.

Lemma pct_change_lookup_0 (close : list Q) :
  (0 < length close)%nat -> pct_change (Fin <$> close) !! 0%nat = Some NaN.
Proof. destruct close; simpl; [lia | done]. Qed.

Lemma pct_change_lookup_S (close : list Q) i p c :
  close !! i = Some p -> close !! S i = Some c -> ~ p == 0 ->
  pct_change (Fin <$> close) !! S i = Some (Fin (c / p + - 1)).
Proof.
  intros Hp Hc Hnz. unfold pct_change.
  rewrite list_lookup_fmap, lookup_zip_with, list_lookup_fmap, Hc.
  rewrite lookup_shift1_S
    by (rewrite length_fmap; by apply lookup_lt_Some in Hc).
  rewrite list_lookup_fmap, Hp. simpl. by rewrite Qeq_bool_nonzero.
Qed.

(** The daily growth factors of the closes multiply up to the ratio of
    the last close to the first. *)
Lemma buyhold_product (close : list Q) i c0 ci :
  Forall (fun c => ~ c == 0) close ->
  close !! 0%nat = Some c0 -> close !! i = Some ci ->
  exists v,
    foldl fl_mul (Fin 1)
      (take (S i) (fl_add (Fin 1) <$> fillna (Fin 0) (pct_change (Fin <$> close))))
    = Fin v
    /\ v == ci / c0.
Proof.
  intros Hclose Hc0. revert ci.
  assert (~ c0 == 0) as Hnz0.
  { by apply (Forall_lookup_1 _ _ _ _ Hclose Hc0). }
  induction i as [|i IH]; intros ci Hci.
  - destruct close as [|c close]; [done|]. simplify_eq/=.
    eexists. split; [reflexivity|]. field. done.
  - destruct (lookup_lt_is_Some_2 close i) as [p Hp].
    { apply lookup_lt_Some in Hci. lia. }
    assert (~ p == 0) as Hnzp.
    { by apply (Forall_lookup_1 _ _ _ _ Hclose Hp). }
    destruct (IH p Hp) as (v & Hv & Hvq).
    erewrite take_S_r; last first.
    { unfold fillna. rewrite !list_lookup_fmap.
      by rewrite (pct_change_lookup_S close i p ci). }
    rewrite foldl_app, Hv. simpl.
    eexists. split; [reflexivity|]. rewrite Hvq. field. done.
Qed.

Lemma buyhold_factors_finite (close : list Q) :
  Forall (fun c => ~ c == 0) close ->
  Forall is_finite
    (fl_add (Fin 1) <$> fillna (Fin 0) (pct_change (Fin <$> close))).
Proof.
  intros Hclose. unfold fillna. rewrite <- list_fmap_compose.
  apply Forall_fmap. eapply Forall_impl; [by apply pct_change_fin_or_nan|].
  intros x Hx. simpl. by destruct x.
Qed.

Lemma is_finite_defined x : is_finite x -> x <> NaN.
Proof. by destruct x. Qed.

Lemma buyhold_cumulative_lookup (close : list Q) i c0 ci :
  Forall (fun c => ~ c == 0) close ->
  close !! 0%nat = Some c0 -> close !! i = Some ci ->
  exists v, buyhold_cumulative close !! i = Some (Fin v) /\ v == ci / c0.
Proof.
  intros Hclose Hc0 Hci. unfold buyhold_cumulative.
  pose proof (buyhold_factors_finite close Hclose) as Hfin.
  set (fs := fl_add (Fin 1) <$> fillna (Fin 0) (pct_change (Fin <$> close))) in *.
  destruct (lookup_lt_is_Some_2 fs i) as [x Hx].
  { subst fs. rewrite length_fmap, length_fillna, length_pct_change, length_fmap.
    by apply lookup_lt_Some in Hci. }
  destruct (cumprod_lookup fs i x Hx) as (v & Hv & _ & Hprod).
  assert (x <> NaN) as Hdef.
  { apply is_finite_defined. by apply (Forall_lookup_1 _ _ _ _ Hfin Hx). }
  specialize (Hprod Hdef). unfold product_upto in Hprod.
  rewrite dropna_all_defined in Hprod; last first.
  { apply Forall_take. eapply Forall_impl; [exact Hfin|]. apply is_finite_defined. }
  destruct (buyhold_product close i c0 ci Hclose Hc0 Hci) as (w & Hw & Hwq).
  fold fs in Hw. rewrite Hw in Hprod.
  destruct (fl_eq_Fin_r _ _ Hprod) as (v' & -> & Hv').
  exists v'. split; [done|]. by rewrite Hv'.
Qed.



(** ** What the metrics are made of *)

Lemma metrics_frame_inv np_sqrt results m :
  _calculate_metrics_frame np_sqrt results = inr m ->
  let strategy_returns := dropna (get_col "Strategy_Returns_Net" results) in
  exists lc lb,
    iloc_last (get_col "Cumulative_Returns" results) = Some lc
    /\ iloc_last (get_col "BuyHold_Cumulative" results) = Some lb
    /\ total_return m = fl_sub lc (Fin 1)
    /\ buyhold_return m = fl_sub lb (Fin 1)
    /\ excess_return m = fl_sub (total_return m) (buyhold_return m)
    /\ max_drawdown m
       = _calculate_max_drawdown (get_col "Portfolio_Value" results)
    /\ sharpe_ratio m
       = _calculate_sharpe_ratio np_sqrt strategy_returns default_risk_free_rate
    /\ total_trades m
       = length (List.filter (fun x => fl_neb x (Fin 0)) strategy_returns)
    /\ win_rate m
       = (if (0 <? total_trades m)%nat
          then fl_div
                 (of_nat (count_true ((fun x => fl_gtb x (Fin 0))
                                        <$> strategy_returns)))
                 (of_nat (total_trades m))
          else Fin 0)
    /\ volatility m
       = fl_mul (std np_sqrt strategy_returns) (np_sqrt (Fin 252)).
Proof.
  unfold _calculate_metrics_frame.
  destruct (iloc_last (get_col "Cumulative_Returns" results)) as [lc|]; [|done].
  destruct (iloc_last (get_col "BuyHold_Cumulative" results)) as [lb|]; [|done].
  intros [= <-]. by exists lc, lb.
Qed.

Lemma iloc_last_lookup (xs : Series) : iloc_last xs = xs !! pred (length xs).
Proof. apply last_lookup. Qed.

(** The benchmark return of a run. *)
Lemma buyhold_return_of_run np_sqrt self d cap com m c0 cl :
  _calculate_metrics_frame np_sqrt (equity_frame self d cap com) = inr m ->
  Forall (fun c => ~ c == 0) (Close d) ->
  Close d !! 0%nat = Some c0 -> last (Close d) = Some cl ->
  exists b, buyhold_return m = Fin b /\ b == cl / c0 - 1.
Proof.
  intros Hm Hclose Hc0 Hcl.
  destruct (metrics_frame_inv _ _ _ Hm) as (lc & lb & _ & Hlb & _ & Hbh & _).
  rewrite equity_frame_buyhold_cumulative, iloc_last_lookup,
    length_buyhold_cumulative in Hlb.
  rewrite last_lookup in Hcl.
  destruct (buyhold_cumulative_lookup _ _ c0 cl Hclose Hc0 Hcl) as (v & Hv & Hvq).
  rewrite Hv in Hlb. injection Hlb as <-.
  eexists. rewrite Hbh. split; [reflexivity|]. rewrite Hvq. ring.
Qed.

(** X2.  The benchmark.  On closes that are never zero, the
    [buyhold_return] that [backtest] reports is the last close over the
    first close, minus 1, whatever the strategy, the capital and the
    commission. *)
Theorem backtest_buyhold_return np_sqrt self data cap com (h : store) d c0 cl :
  h !! data = Some d ->
  Forall (fun c => ~ c == 0) (Close d) ->
  Close d !! 0%nat = Some c0 -> last (Close d) = Some cl ->
  exists r h' b,
    backtest np_sqrt self data cap com h = inr (r, h')
    /\ buyhold_return (res_metrics r) = Fin b
    /\ b == cl / c0 - 1.
Proof.
  intros Hd Hclose Hc0 Hcl. rewrite (backtest_run _ _ _ _ _ _ d Hd).
  destruct (metrics_of_equity_frame np_sqrt self d cap com) as [m Hm].
  { apply lookup_lt_Some in Hc0. by unfold df_len. }
  rewrite Hm.
  destruct (buyhold_return_of_run _ _ _ _ _ _ _ _ Hm Hclose Hc0 Hcl)
    as (b & Hb & Hbq).
  by do 3 eexists.
Qed.

Lemma backtest_buyhold_return_witness :
  exists r h' b,
    backtest sqrt_approx ma_2_3 1%positive 10000 (1 # 1000)
      {[1%positive := crossing_rows]} = inr (r, h')
    /\ buyhold_return (res_metrics r) = Fin b
    /\ b == 30 / 10 - 1.
Proof.
  apply (backtest_buyhold_return sqrt_approx ma_2_3 1%positive 10000 (1 # 1000)
           {[1%positive := crossing_rows]} crossing_rows 10 30).
  - reflexivity.
  - repeat constructor; by intros ?.
  - reflexivity.
  - reflexivity.
Defined.

Lemma scaled_growth cap x :
  fl_mul (Fin cap) x ≈ fl_mul (Fin cap) (fl_add (Fin 1) (fl_sub x (Fin 1))).
Proof. destruct x; simpl; try reflexivity. ring. Qed.

(** X3.  The reported returns and the last row of the equity curves
    agree: the last [Portfolio_Value] is the initial capital times
    1 + [total_return], and the last [BuyHold_Value] is the initial capital
    times 1 + [buyhold_return]. *)
Theorem final_values_match_returns np_sqrt self data cap com (h : store) d :
  h !! data = Some d -> (0 < df_len d)%nat ->
  exists r h' curve pv bh,
    backtest np_sqrt self data cap com h = inr (r, h')
    /\ h' !! res_equity_curve r = Some curve
    /\ iloc_last (get_col "Portfolio_Value" curve) = Some pv
    /\ iloc_last (get_col "BuyHold_Value" curve) = Some bh
    /\ pv ≈ fl_mul (Fin cap) (fl_add (Fin 1) (total_return (res_metrics r)))
    /\ bh ≈ fl_mul (Fin cap) (fl_add (Fin 1) (buyhold_return (res_metrics r))).
Proof.
  intros Hd Hlen. rewrite (backtest_run _ _ _ _ _ _ d Hd).
  destruct (metrics_of_equity_frame np_sqrt self d cap com Hlen) as [m Hm].
  rewrite Hm.
  destruct (metrics_frame_inv _ _ _ Hm) as (lc & lb & Hlc & Hlb & Htr & Hbh & _).
  exists (mkBacktestResults (fresh (dom h)) (fresh (dom h)) m cap com),
    (<[fresh (dom h) := equity_frame self d cap com]> h),
    (equity_frame self d cap com), (fl_mul (Fin cap) lc), (fl_mul (Fin cap) lb).
  split; [reflexivity|]. simpl.
  split; [by rewrite lookup_insert_eq|].
  rewrite equity_frame_cumulative in Hlc.
  rewrite equity_frame_buyhold_cumulative in Hlb.
  rewrite equity_frame_portfolio, equity_frame_buyhold_value.
  unfold portfolio_value, buyhold_value, iloc_last in *.
  rewrite !fmap_last, Hlc, Hlb, Htr, Hbh.
  repeat split; try done; apply scaled_growth.
Qed.

Lemma final_values_match_returns_witness :
  exists r h' curve pv bh,
    backtest sqrt_approx ma_2_3 1%positive 10000 (1 # 1000)
      {[1%positive := crossing_rows]} = inr (r, h')
    /\ h' !! res_equity_curve r = Some curve
    /\ iloc_last (get_col "Portfolio_Value" curve) = Some pv
    /\ iloc_last (get_col "BuyHold_Value" curve) = Some bh
    /\ pv ≈ fl_mul (Fin 10000) (fl_add (Fin 1) (total_return (res_metrics r)))
    /\ bh ≈ fl_mul (Fin 10000) (fl_add (Fin 1) (buyhold_return (res_metrics r))).
Proof.
  apply (final_values_match_returns sqrt_approx ma_2_3 1%positive 10000 (1 # 1000)
           {[1%positive := crossing_rows]} crossing_rows).
  - reflexivity.
  - unfold df_len. simpl. lia.
Defined.

(** ** The net return of one row *)

Lemma position_lagged_col d cap com :
  get_col "Position_Lagged" (_calculate_returns_frame d cap com)
  = position_lagged (get_col "Position" d).
Proof. unfold _calculate_returns_frame. frame_simpl. reflexivity. Qed.

Lemma position_lagged_lookup_0 (pos : Series) :
  (0 < length pos)%nat -> position_lagged pos !! 0%nat = Some (Fin 0).
Proof.
  intros Hlen. unfold position_lagged, fillna.
  by rewrite list_lookup_fmap, lookup_shift1_0.
Qed.

Lemma position_lagged_lookup_S (pos : Series) i x :
  (S i < length pos)%nat -> pos !! i = Some x ->
  position_lagged pos !! S i = Some (if isnan x then Fin 0 else x).
Proof.
  intros Hlen Hx. unfold position_lagged, fillna.
  by rewrite list_lookup_fmap, lookup_shift1_S, Hx.
Qed.

Lemma strategy_returns_net_lookup_S close (pos : Series) com i p c a b :
  close !! i = Some p -> close !! S i = Some c -> ~ p == 0 ->
  position_lagged pos !! i = Some b ->
  position_lagged pos !! S i = Some a ->
  strategy_returns_net close pos com !! S i
  = Some (fl_sub (fl_mul a (Fin (c / p - 1)))
                 (fl_mul (fl_abs (fl_sub a b)) (Fin com))).
Proof.
  intros Hp Hc Hnz Hb Ha. unfold strategy_returns_net.
  rewrite lookup_zip_with, lookup_zip_with, Ha.
  rewrite (pct_change_lookup_S close i p c) by done.
  unfold series_abs, diff.
  rewrite !list_lookup_fmap, lookup_zip_with, Ha.
  rewrite lookup_shift1_S by (by apply lookup_lt_Some in Ha).
  by rewrite Hb.
Qed.

(** X4.  One row of [_calculate_returns].  The position that counts on
    a row is the one of the row before ([Position_Lagged], 0 on the first
    row and where the position is missing); the net return of the row is
    that position times the close-to-close return, minus the commission
    times the absolute change of that position. *)
Theorem net_return_of_a_row d cap com :
  let r := _calculate_returns_frame d cap com in
  ((0 < length (get_col "Position" d))%nat ->
   get_col "Position_Lagged" r !! 0%nat = Some (Fin 0))
  /\ (forall i x,
        (S i < length (get_col "Position" d))%nat ->
        get_col "Position" d !! i = Some x ->
        get_col "Position_Lagged" r !! S i
        = Some (if isnan x then Fin 0 else x))
  /\ (forall i p c a b,
        Close d !! i = Some p -> Close d !! S i = Some c -> ~ p == 0 ->
        get_col "Position_Lagged" r !! i = Some b ->
        get_col "Position_Lagged" r !! S i = Some a ->
        get_col "Strategy_Returns_Net" r !! S i
        = Some (fl_sub (fl_mul a (Fin (c / p - 1)))
                       (fl_mul (fl_abs (fl_sub a b)) (Fin com)))).
Proof.
  intros r. subst r. rewrite position_lagged_col, returns_net_col.
  split; [apply position_lagged_lookup_0|].
  split; [apply position_lagged_lookup_S|].
  intros i p c a b. apply strategy_returns_net_lookup_S.
Qed.

Lemma net_return_of_a_row_witness :
  let r := _calculate_returns_frame
             (generate_signals_frame ma_2_3 crossing_rows) 10000 (1 # 1000) in
  get_col "Strategy_Returns_Net" r !! 8%nat
  = Some (fl_sub (fl_mul (Fin 1) (Fin (30 / 30 - 1)))
                 (fl_mul (fl_abs (fl_sub (Fin 1) (Fin 0))) (Fin (1 # 1000)))).
Proof.
  intros r.
  refine (proj2 (proj2 (net_return_of_a_row
                          (generate_signals_frame ma_2_3 crossing_rows)
                          10000 (1 # 1000)))
            7%nat 30 30 (Fin 1) (Fin 0) _ _ _ _ _).
  - reflexivity.
  - reflexivity.
  - by intros ?.
  - by vm_compute.
  - by vm_compute.
Defined.

Lemma held_position_binary self close i x :
  position_lagged (position_column self close) !! i = Some x ->
  x = Fin 0 \/ x = Fin 1.
Proof.
  intros Hx. unfold position_lagged, fillna in Hx.
  rewrite list_lookup_fmap in Hx.
  destruct (shift1 (position_column self close) !! i) as [y|] eqn:Hy; [|done].
  simpl in Hx. injection Hx as <-.
  assert (y = NaN \/ y = Fin 0 \/ y = Fin 1) as Hcases.
  { unfold shift1 in Hy. apply lookup_take_Some in Hy as [Hy _].
    destruct i as [|i]; simpl in Hy; [left; congruence|]. right.
    pose proof (positions_from_binary (Fin 0) (signal_column self close)
                  (or_introl eq_refl)) as Hbin.
    by apply (Forall_lookup_1 _ _ _ _ Hbin Hy). }
  destruct Hcases as [-> | [-> | ->]]; auto.
Qed.

(** X5.  The four kinds of day of a backtest.  The position held on a
    row is 0 or 1.  Out of the market and staying out, the net return is
    0; in the market and staying in, it is the close-to-close return; on
    the row after an entry it is that return minus the commission; on
    the row after an exit it is minus the commission. *)
Theorem net_return_by_kind_of_day self d cap com i p c :
  Close d !! i = Some p -> Close d !! S i = Some c -> ~ p == 0 ->
  let r := equity_frame self d cap com in
  exists before held v,
    get_col "Position_Lagged" r !! i = Some (Fin before)
    /\ get_col "Position_Lagged" r !! S i = Some (Fin held)
    /\ get_col "Strategy_Returns_Net" r !! S i = Some (Fin v)
    /\ (before = 0 \/ before = 1) /\ (held = 0 \/ held = 1)
    /\ (before = 0 -> held = 0 -> v == 0)
    /\ (before = 1 -> held = 1 -> v == c / p - 1)
    /\ (before = 0 -> held = 1 -> v == c / p - 1 - com)
    /\ (before = 1 -> held = 0 -> v == - com).
Proof.
  intros Hp Hc Hnz r. subst r. unfold equity_frame.
  rewrite position_lagged_col, returns_net_col, Position_generate_signals,
    Close_generate_signals.
  set (pl := position_lagged (position_column self (Close d))).
  assert (length pl = length (Close d)) as Hlen.
  { subst pl. unfold position_lagged.
    by rewrite length_fillna, length_shift1, length_position_column. }
  destruct (lookup_lt_is_Some_2 pl i) as [b Hb].
  { rewrite Hlen. by apply lookup_lt_Some in Hp. }
  destruct (lookup_lt_is_Some_2 pl (S i)) as [a Ha].
  { rewrite Hlen. by apply lookup_lt_Some in Hc. }
  rewrite (strategy_returns_net_lookup_S _ _ com i p c a b Hp Hc Hnz Hb Ha).
  rewrite Hb, Ha.
  destruct (held_position_binary _ _ _ _ Hb) as [-> | ->],
    (held_position_binary _ _ _ _ Ha) as [-> | ->];
    do 3 eexists;
    (split; [reflexivity|]); (split; [reflexivity|]); (split; [reflexivity|]);
    (split; [auto|]); (split; [auto|]);
    repeat split; intros; try done;
    match goal with
    | |- context [Qabs ?x] =>
        let y := eval vm_compute in (Qabs x) in change (Qabs x) with y
    end; ring.
Qed.

Lemma net_return_by_kind_of_day_witness :
  let r := equity_frame ma_2_3 crossing_rows 10000 (1 # 1000) in
  exists before held v,
    get_col "Position_Lagged" r !! 7%nat = Some (Fin before)
    /\ get_col "Position_Lagged" r !! 8%nat = Some (Fin held)
    /\ get_col "Strategy_Returns_Net" r !! 8%nat = Some (Fin v)
    /\ (before = 0 \/ before = 1) /\ (held = 0 \/ held = 1)
    /\ (before = 0 -> held = 0 -> v == 0)
    /\ (before = 1 -> held = 1 -> v == 30 / 30 - 1)
    /\ (before = 0 -> held = 1 -> v == 30 / 30 - 1 - (1 # 1000))
    /\ (before = 1 -> held = 0 -> v == - (1 # 1000)).
Proof.
  apply (net_return_by_kind_of_day ma_2_3 crossing_rows 10000 (1 # 1000) 7 30 30).
  - reflexivity.
  - reflexivity.
  - by intros ?.
Defined.

(** ** Rows without a signal *)

Lemma ma_long_col_warm_up self close j :
  (j < length close)%nat -> (Z.of_nat (S j) < long_window self)%Z ->
  ma_long_col self close !!! j = NaN.
Proof.
  intros Hj Hlw. apply list_lookup_total_correct. unfold ma_long_col.
  rewrite rolling_mean_lookup by done.
  destruct (decide _) as [Hle|]; [lia | done].
Qed.

Lemma signal_column_warm_up self close i :
  (i < length close)%nat -> (Z.of_nat i < long_window self)%Z ->
  signal_column self close !! i = Some (Fin 0).
Proof.
  intros Hi Hlw. rewrite signal_column_row by done.
  rewrite signal_at_no_previous; [done|].
  destruct i as [|j]; [by left|]. right.
  apply ma_long_col_warm_up; lia.
Qed.

Lemma position_column_warm_up self close i :
  (i < length close)%nat -> (Z.of_nat i < long_window self)%Z ->
  position_column self close !! i = Some (Fin 0).
Proof.
  intros Hi Hlw. unfold position_column.
  apply positions_from_before_signals.
  - by rewrite length_signal_column.
  - intros j Hj. apply signal_column_warm_up; lia.
Qed.

(** X6.  Warming up.  The first [long_window] rows carry no signal and
    no position: the long average is missing on the rows before
    [long_window - 1], and a crossover needs both averages on two rows
    in a row. *)
Theorem warm_up_rows self d i :
  (i < df_len d)%nat -> (Z.of_nat i < long_window self)%Z ->
  let g := generate_signals_frame self d in
  get_col "Signal" g !! i = Some (Fin 0)
  /\ get_col "Position" g !! i = Some (Fin 0).
Proof.
  intros Hi Hlw g. subst g.
  rewrite Signal_generate_signals, Position_generate_signals.
  split; [by apply signal_column_warm_up | by apply position_column_warm_up].
Qed.

Lemma warm_up_rows_witness :
  let g := generate_signals_frame ma_2_3 crossing_rows in
  get_col "Signal" g !! 2%nat = Some (Fin 0)
  /\ get_col "Position" g !! 2%nat = Some (Fin 0).
Proof.
  apply (warm_up_rows ma_2_3 crossing_rows 2).
  - unfold df_len. simpl. lia.
  - simpl. lia.
Defined.

(** ** Runs that never hold a position *)

Lemma strategy_returns_net_lookup_0 close (pos : Series) com :
  (0 < length close)%nat -> length pos = length close ->
  strategy_returns_net close pos com !! 0%nat = Some NaN.
Proof.
  intros Hlen Hpos. unfold strategy_returns_net.
  rewrite lookup_zip_with, lookup_zip_with.
  rewrite position_lagged_lookup_0 by lia.
  rewrite pct_change_lookup_0 by done. simpl.
  unfold series_abs, diff. rewrite !list_lookup_fmap, lookup_zip_with.
  rewrite position_lagged_lookup_0 by lia. simpl.
  rewrite lookup_shift1_0; [done|].
  unfold position_lagged. rewrite length_fillna, length_shift1. lia.
Qed.

(** With no position held on any row, the net returns are a first NaN
    followed by zeros. *)
Lemma flat_net_returns close (pos : Series) com :
  (0 < length close)%nat -> length pos = length close ->
  Forall (fun c => ~ c == 0) close ->
  (forall i, (i < length close)%nat -> position_lagged pos !! i = Some (Fin 0)) ->
  exists zs,
    strategy_returns_net close pos com = NaN :: zs
    /\ Forall (fun v => v ≈ Fin 0) zs.
Proof.
  intros Hlen Hpos Hclose Hflat.
  pose proof (strategy_returns_net_lookup_0 close pos com Hlen Hpos) as H0.
  pose proof (length_strategy_returns_net close pos com Hpos) as Hn.
  destruct (strategy_returns_net close pos com) as [|x zs] eqn:E; [done|].
  simpl in H0. injection H0 as ->. exists zs. split; [done|].
  apply Forall_lookup_2. intros i z Hz.
  assert (S i < length close)%nat as Hi.
  { apply lookup_lt_Some in Hz. simpl in Hn. lia. }
  destruct (lookup_lt_is_Some_2 close i) as [p Hp]; [lia|].
  destruct (lookup_lt_is_Some_2 close (S i)) as [c Hc]; [lia|].
  assert (~ p == 0) as Hnz by (by apply (Forall_lookup_1 _ _ _ _ Hclose Hp)).
  pose proof (strategy_returns_net_lookup_S close pos com i p c (Fin 0) (Fin 0)
                Hp Hc Hnz (Hflat i ltac:(lia)) (Hflat (S i) Hi)) as Hrow.
  rewrite E in Hrow. change ((NaN :: zs) !! S i) with (zs !! i) in Hrow.
  rewrite Hz in Hrow. apply (inj Some) in Hrow. subst z.
  unfold fl_sub, fl_mul, fl_abs, fl_add, fl_opp, fl_eq.
  change (Qabs (0 + - 0)) with 0. ring.
Qed.

Lemma flat_running_product a (fs : Series) :
  a == 1 -> Forall (fun v => v ≈ Fin 1) fs ->
  Forall (fun v => v ≈ Fin 1)
    (zip_with (fun (m : bool) r => if m then NaN else r) (isnan <$> fs)
       (cumprod_from (Fin a) (fillna (Fin 1) fs))).
Proof.
  intros Ha Hfs. revert a Ha.
  induction Hfs as [|f fs Hf Hfs IH]; intros a Ha; [done|].
  destruct (fl_eq_Fin_r _ _ Hf) as (q & -> & Hq).
  cbn [fmap list_fmap fillna isnan cumprod_from zip_with fl_mul].
  constructor.
  - simpl. rewrite Ha, Hq. ring.
  - apply IH. rewrite Ha, Hq. ring.
Qed.

Lemma flat_cumulative_returns (zs : Series) :
  Forall (fun v => v ≈ Fin 0) zs ->
  exists gs,
    cumprod (fl_add (Fin 1) <$> (NaN :: zs)) = NaN :: gs
    /\ length gs = length zs
    /\ Forall (fun v => v ≈ Fin 1) gs.
Proof.
  intros Hzs. unfold cumprod.
  cbn [fmap list_fmap fl_add fillna isnan np_cumprod zip_with].
  eexists. split; [reflexivity|]. split.
  - rewrite length_zip_with, length_fmap, length_cumprod_from, length_fmap,
      !length_fmap. lia.
  - apply (flat_running_product 1); [done|].
    apply Forall_fmap. eapply Forall_impl; [exact Hzs|].
    intros v Hv. destruct (fl_eq_Fin_r _ _ Hv) as (q & -> & Hq).
    simpl. rewrite Hq. ring.
Qed.

Lemma last_Forall {A} (P : A -> Prop) (xs : list A) x :
  Forall P xs -> last xs = Some x -> P x.
Proof.
  intros Hxs Hx. rewrite last_lookup in Hx.
  by apply (Forall_lookup_1 _ _ _ _ Hxs Hx).
Qed.

Lemma no_trades_in_zeros (zs : Series) :
  Forall (fun v => v ≈ Fin 0) zs ->
  dropna zs = zs
  /\ List.filter (fun x => fl_neb x (Fin 0)) zs = [].
Proof.
  induction 1 as [|z zs Hz _ [IH1 IH2]]; [done|].
  destruct (fl_eq_Fin_r _ _ Hz) as (q & -> & Hq).
  rewrite dropna_cons_Fin, IH1. split; [done|]. simpl.
  assert (fl_neb (Fin q) (Fin 0) = false) as ->; [|done].
  unfold fl_neb. by rewrite (proj2 (fl_eqb_Fin q 0) Hq).
Qed.

Lemma finite_values_near cap (hs : Series) :
  Forall (fun v => v ≈ Fin cap) hs ->
  length (finite_values hs) = length hs
  /\ Forall (fun q => q == cap) (finite_values hs).
Proof.
  induction 1 as [|v hs Hv _ [IH1 IH2]]; [done|].
  destruct (fl_eq_Fin_r _ _ Hv) as (q & -> & Hq).
  rewrite finite_values_cons_Fin. simpl. split; [by rewrite IH1|].
  by constructor.
Qed.

Lemma nondecreasing_constant cap (qs : list Q) :
  Forall (fun q => q == cap) qs -> nondecreasing qs.
Proof.
  induction 1 as [|x qs Hx Hqs IH]; [done|].
  destruct Hqs as [|y qs Hy Hqs]; [done|].
  apply nondecreasing_cons. split; [|done]. rewrite Hx, Hy. apply Qle_refl.
Qed.

Lemma fl_eqb_zero v : fl_eqb v (Fin 0) = true -> v ≈ Fin 0.
Proof.
  destruct v as [q| | |]; try done. intros H. by apply fl_eqb_Fin.
Qed.

(** The sum, the mean and the variance of zeros. *)
Lemma foldl_fl_add_zeros a (zs : Series) :
  a == 0 -> Forall (fun v => v ≈ Fin 0) zs ->
  foldl fl_add (Fin a) zs ≈ Fin 0.
Proof.
  intros Ha Hzs. revert a Ha.
  induction Hzs as [|z zs Hz _ IH]; intros a Ha; [done|].
  destruct (fl_eq_Fin_r _ _ Hz) as (q & -> & Hq).
  simpl. apply IH. rewrite Ha, Hq. ring.
Qed.

Lemma var_zeros (zs : Series) :
  (2 <= length zs)%nat -> Forall (fun v => v ≈ Fin 0) zs ->
  var zs ≈ Fin 0.
Proof.
  intros Hlen Hzs. unfold var. cbv zeta. unfold mean, series_sum, count.
  destruct (no_trades_in_zeros zs Hzs) as [-> _].
  destruct (length zs <=? 1)%nat eqn:E; [apply Nat.leb_le in E; lia|].
  destruct (fl_eq_Fin_r _ _ (foldl_fl_add_zeros 0 zs ltac:(done) Hzs))
    as (s & -> & Hs).
  rewrite fl_div_of_nat by lia.
  match goal with
  | |- context [dropna (?f <$> zs)] =>
      assert (Forall (fun v => v ≈ Fin 0) (f <$> zs)) as Hsq
  end.
  { apply Forall_fmap. eapply Forall_impl; [exact Hzs|].
    intros v Hv. destruct (fl_eq_Fin_r _ _ Hv) as (q & -> & Hq).
    simpl. rewrite Hs, Hq. field.
    apply inject_Z_of_nat_nonzero. lia. }
  destruct (no_trades_in_zeros _ Hsq) as [-> _].
  destruct (fl_eq_Fin_r _ _ (foldl_fl_add_zeros 0 _ ltac:(done) Hsq))
    as (s2 & -> & Hs2).
  rewrite fl_div_of_nat by lia. simpl. rewrite Hs2. field.
  apply inject_Z_of_nat_nonzero. lia.
Qed.

Lemma flat_positions_lagged self close :
  (forall j, (S j < length close)%nat ->
             position_column self close !! j = Some (Fin 0)) ->
  forall i, (i < length close)%nat ->
            position_lagged (position_column self close) !! i = Some (Fin 0).
Proof.
  intros Hflat [|j] Hi.
  - apply position_lagged_lookup_0. by rewrite length_position_column.
  - by rewrite (position_lagged_lookup_S _ j (Fin 0))
      by (rewrite ?length_position_column; auto).
Qed.

(** A run that holds no position before its last row: no return, no
    trade, no drawdown. *)
Lemma flat_run np_sqrt self d cap com :
  (2 <= df_len d)%nat ->
  Forall (fun c => ~ c == 0) (Close d) -> 0 < cap ->
  (forall j, (S j < df_len d)%nat ->
             position_column self (Close d) !! j = Some (Fin 0)) ->
  exists m,
    _calculate_metrics_frame np_sqrt (equity_frame self d cap com) = inr m
    /\ total_return m ≈ Fin 0
    /\ total_trades m = 0%nat
    /\ win_rate m = Fin 0
    /\ max_drawdown m ≈ Fin 0
    /\ ((forall q, q == 0 -> fl_eqb (np_sqrt (Fin q)) (Fin 0) = true) ->
        (3 <= df_len d)%nat -> sharpe_ratio m = Fin 0)
    /\ (np_sqrt NaN = NaN -> df_len d = 2%nat ->
        sharpe_ratio m = NaN /\ volatility m = NaN).
Proof.
  intros Hlen Hclose Hcap Hflat. unfold df_len in *.
  destruct (metrics_of_equity_frame np_sqrt self d cap com) as [m Hm].
  { unfold df_len. lia. }
  exists m. split; [done|].
  destruct (metrics_frame_inv _ _ _ Hm)
    as (lc & lb & Hlc & _ & Htr & _ & _ & Hdd & Hsr & Htt & Hwr & Hvol).
  rewrite equity_frame_net in Hsr, Htt, Hwr, Hvol.
  rewrite equity_frame_cumulative in Hlc. rewrite equity_frame_portfolio in Hdd.
  unfold portfolio_value, cumulative_returns in *.
  destruct (flat_net_returns (Close d) (position_column self (Close d)) com)
    as (zs & Hnet & Hzs);
    [lia | apply length_position_column | done
    | by apply flat_positions_lagged |].
  pose proof (length_strategy_returns_net (Close d)
                (position_column self (Close d)) com
                (length_position_column _ _)) as Hn.
  rewrite Hnet in *. simpl in Hn.
  destruct (flat_cumulative_returns zs Hzs) as (gs & Hcum & Hgs & Hones).
  rewrite Hcum in *.
  rewrite dropna_cons_NaN in Hsr, Htt, Hwr, Hvol.
  destruct (no_trades_in_zeros zs Hzs) as [Hdrop Hnone].
  rewrite Hdrop in Hsr, Htt, Hwr, Hvol. rewrite Hnone in Htt. simpl in Htt.
  rewrite Htt in Hwr. simpl in Hwr.
  repeat split; try done.
  - rewrite Htr. unfold iloc_last in Hlc.
    destruct gs as [|g gs]; [simpl in Hgs; lia|].
    change (last (NaN :: g :: gs)) with (last (g :: gs)) in Hlc.
    pose proof (last_Forall _ _ _ Hones Hlc) as Hl.
    destruct (fl_eq_Fin_r _ _ Hl) as (q & -> & Hq). simpl. rewrite Hq. ring.
  - rewrite Hdd. apply fl_eqb_zero.
    assert (Forall (fun v => v ≈ Fin cap) (fl_mul (Fin cap) <$> gs)) as Hcaps.
    { apply Forall_fmap. eapply Forall_impl; [exact Hones|].
      intros v Hv. destruct (fl_eq_Fin_r _ _ Hv) as (q & -> & Hq).
      simpl. rewrite Hq. ring. }
    destruct (finite_values_near cap _ Hcaps) as [Hfl Hfv].
    change (fl_mul (Fin cap) <$> NaN :: gs)
      with (NaN :: (fl_mul (Fin cap) <$> gs)).
    destruct (finite_values (fl_mul (Fin cap) <$> gs)) as [|q1 rest] eqn:Efv.
    { rewrite length_fmap in Hfl. simpl in Hfl. lia. }
    apply (max_drawdown_sign (NaN :: (fl_mul (Fin cap) <$> gs)) q1 rest).
    + constructor; [done|]. eapply Forall_impl; [exact Hcaps|].
      intros v Hv. by destruct (fl_eq_Fin_r _ _ Hv) as (q & -> & _).
    + by rewrite finite_values_cons_NaN.
    + inversion Hfv as [|? ? Hq1 _]; subst. by rewrite Hq1.
    + rewrite finite_values_cons_NaN, Efv. by eapply nondecreasing_constant.
  - intros Hsqrt Hthree. rewrite Hsr.
    unfold _calculate_sharpe_ratio, std.
    destruct (fl_eq_Fin_r _ _ (var_zeros zs ltac:(lia) Hzs)) as (v & -> & Hv).
    by rewrite Hsqrt.
  - rewrite Hsr. unfold _calculate_sharpe_ratio, std.
    destruct zs as [|z [|]]; simpl in Hn; try lia.
    inversion Hzs as [|? ? Hz _]; subst.
    destruct (fl_eq_Fin_r _ _ Hz) as (q & -> & _).
    change (var [Fin q]) with NaN. rewrite H. cbv zeta.
    change (fl_eqb NaN (Fin 0)) with false. cbv iota.
    change (fl_mul NaN (np_sqrt (Fin 252))) with NaN.
    by destruct (fl_sub _ _).
  - rewrite Hvol. unfold std.
    destruct zs as [|z [|]]; simpl in Hn; try lia.
    inversion Hzs as [|? ? Hz _]; subst.
    destruct (fl_eq_Fin_r _ _ Hz) as (q & -> & _).
    change (var [Fin q]) with NaN. by rewrite H.
Qed.

(** X7.  Too few rows to trade.  On a series of at least two rows and
    at most [long_window + 1] rows (closes never zero, a positive
    capital) [backtest] returns without raising and reports a total
    return of 0, no trade, a win rate of 0 and no drawdown.  From three
    rows on the Sharpe ratio is 0 as well, as soon as [numpy.sqrt] maps
    0 to 0; with exactly two rows there is a single return, and the
    Sharpe ratio and the volatility are NaN, as soon as [numpy.sqrt]
    maps NaN to NaN. *)
Theorem too_few_rows_to_trade np_sqrt self data cap com (h : store) d :
  h !! data = Some d ->
  (2 <= df_len d)%nat -> (Z.of_nat (df_len d) <= long_window self + 1)%Z ->
  Forall (fun c => ~ c == 0) (Close d) -> 0 < cap ->
  exists r h',
    backtest np_sqrt self data cap com h = inr (r, h')
    /\ total_return (res_metrics r) ≈ Fin 0
    /\ total_trades (res_metrics r) = 0%nat
    /\ win_rate (res_metrics r) = Fin 0
    /\ max_drawdown (res_metrics r) ≈ Fin 0
    /\ ((forall q, q == 0 -> fl_eqb (np_sqrt (Fin q)) (Fin 0) = true) ->
        (3 <= df_len d)%nat -> sharpe_ratio (res_metrics r) = Fin 0)
    /\ (np_sqrt NaN = NaN -> df_len d = 2%nat ->
        sharpe_ratio (res_metrics r) = NaN
        /\ volatility (res_metrics r) = NaN).
Proof.
  intros Hd Hlen Hlw Hclose Hcap. rewrite (backtest_run _ _ _ _ _ _ d Hd).
  destruct (flat_run np_sqrt self d cap com Hlen Hclose Hcap) as (m & -> & Hm).
  { intros j Hj. apply position_column_warm_up; unfold df_len in *; lia. }
  by do 2 eexists.
Qed.

Lemma too_few_rows_to_trade_witness :
  exists r h',
    backtest sqrt_approx ma_2_3 1%positive 10000 (1 # 1000)
      {[1%positive := four_rows]} = inr (r, h')
    /\ total_return (res_metrics r) ≈ Fin 0
    /\ total_trades (res_metrics r) = 0%nat
    /\ win_rate (res_metrics r) = Fin 0
    /\ max_drawdown (res_metrics r) ≈ Fin 0
    /\ ((forall q, q == 0 -> fl_eqb (sqrt_approx (Fin q)) (Fin 0) = true) ->
        (3 <= df_len four_rows)%nat ->
        sharpe_ratio (res_metrics r) = Fin 0)
    /\ (sqrt_approx NaN = NaN -> df_len four_rows = 2%nat ->
        sharpe_ratio (res_metrics r) = NaN
        /\ volatility (res_metrics r) = NaN).
Proof.
  apply (too_few_rows_to_trade sqrt_approx ma_2_3 1%positive 10000 (1 # 1000)
           {[1%positive := four_rows]}
           four_rows).
  - reflexivity.
  - unfold df_len. simpl. lia.
  - unfold df_len. simpl. lia.
  - repeat constructor; by intros ?.
  - reflexivity.
Defined.

(** ** Closes that do not move *)

Lemma Qsum_replicate n c : Qsum (replicate n c) == inject_Z (Z.of_nat n) * c.
Proof.
  induction n as [|n IH]; [simpl; ring|].
  change (Qsum (replicate (S n) c)) with (c + Qsum (replicate n c)).
  rewrite IH, Nat2Z.inj_succ. unfold Z.succ. rewrite inject_Z_plus. ring.
Qed.

(** The moving average of constant closes is that constant wherever it
    is defined. *)
Lemma rolling_mean_constant w n c i v :
  rolling_mean w (replicate n c) !! i = Some v ->
  v = NaN \/ exists q, v = Fin q /\ q == c.
Proof.
  intros Hv.
  assert (i < n)%nat as Hi.
  { apply lookup_lt_Some in Hv.
    by rewrite length_rolling_mean, length_replicate in Hv. }
  rewrite rolling_mean_lookup in Hv by (by rewrite length_replicate).
  apply (inj Some) in Hv. subst v.
  destruct (decide (w <= S i)%nat) as [Hw|]; [|by left].
  rewrite drop_replicate, take_replicate.
  replace (w `min` (n - (S i - w)))%nat with w by lia.
  destruct w as [|w]; [by left|]. right.
  rewrite fl_div_of_nat by lia.
  eexists. split; [reflexivity|]. rewrite Qsum_replicate. field.
  apply inject_Z_of_nat_nonzero. lia.
Qed.

Lemma signal_at_level c s1 l1 s0 l0 :
  (s1 = NaN \/ exists q, s1 = Fin q /\ q == c) ->
  (l1 = NaN \/ exists q, l1 = Fin q /\ q == c) ->
  signal_at s1 l1 s0 l0 = Fin 0.
Proof.
  intros [-> | (a & -> & Ha)] [-> | (b & -> & Hb)];
    unfold signal_at, fl_ltb, fl_gtb; simpl; try done.
  assert ((a ?= b) = Eq) as ->; [|done].
  apply Qeq_alt. by rewrite Ha, Hb.
Qed.

Lemma signal_column_constant self n c :
  signal_column self (replicate n c) = replicate n (Fin 0).
Proof.
  symmetry. apply replicate_as_Forall. split.
  - by rewrite length_signal_column, length_replicate.
  - apply Forall_lookup_2. intros i s Hs.
    assert (i < n)%nat as Hi.
    { apply lookup_lt_Some in Hs.
      by rewrite length_signal_column, length_replicate in Hs. }
    rewrite signal_column_row in Hs by (by rewrite length_replicate).
    apply (inj Some) in Hs. subst s. symmetry.
    apply (signal_at_level c).
    + destruct (lookup_lt_is_Some_2 (ma_short_col self (replicate n c)) i)
        as [v Hv].
      { unfold ma_short_col. by rewrite length_rolling_mean, length_replicate. }
      rewrite (list_lookup_total_correct _ _ _ Hv).
      by eapply rolling_mean_constant.
    + destruct (lookup_lt_is_Some_2 (ma_long_col self (replicate n c)) i)
        as [v Hv].
      { unfold ma_long_col. by rewrite length_rolling_mean, length_replicate. }
      rewrite (list_lookup_total_correct _ _ _ Hv).
      by eapply rolling_mean_constant.
Qed.

(** X8.  A price that does not move.  On constant closes, whatever the
    two windows and the number of rows, [generate_signals] writes no
    signal and no position; with at least two rows of a non-zero close
    and a positive capital, [backtest] reports a total return of 0, no
    trade, a win rate of 0 and no drawdown. *)
Theorem constant_closes_no_trade :
  (forall self d c,
     Close d = replicate (df_len d) c ->
     let g := generate_signals_frame self d in
     get_col "Signal" g = replicate (df_len d) (Fin 0)
     /\ get_col "Position" g = replicate (df_len d) (Fin 0))
  /\ (forall np_sqrt self data cap com (h : store) d c,
        h !! data = Some d ->
        Close d = replicate (df_len d) c -> (2 <= df_len d)%nat ->
        ~ c == 0 -> 0 < cap ->
        exists r h',
          backtest np_sqrt self data cap com h = inr (r, h')
          /\ total_return (res_metrics r) ≈ Fin 0
          /\ total_trades (res_metrics r) = 0%nat
          /\ win_rate (res_metrics r) = Fin 0
          /\ max_drawdown (res_metrics r) ≈ Fin 0).
Proof.
  split.
  - intros self d c Hc g. subst g.
    rewrite Signal_generate_signals, Position_generate_signals.
    unfold position_column. rewrite Hc, signal_column_constant.
    by rewrite positions_from_zeros.
  - intros np_sqrt self data cap com h d c Hd Hc Hlen Hnz Hcap.
    rewrite (backtest_run _ _ _ _ _ _ d Hd).
    destruct (flat_run np_sqrt self d cap com Hlen) as (m & -> & Hm); try done.
    { rewrite Hc. by apply Forall_replicate. }
    { intros j Hj. unfold position_column.
      rewrite Hc, signal_column_constant, positions_from_zeros.
      apply lookup_replicate_2. lia. }
    do 2 eexists. split; [reflexivity|]. simpl. tauto.
Qed.

Lemma constant_closes_no_trade_witness :
  exists r h',
    backtest sqrt_approx ma_2_3 1%positive 10000 (1 # 1000)
      {[1%positive := constant_rows]} = inr (r, h')
    /\ total_return (res_metrics r) ≈ Fin 0
    /\ total_trades (res_metrics r) = 0%nat
    /\ win_rate (res_metrics r) = Fin 0
    /\ max_drawdown (res_metrics r) ≈ Fin 0.
Proof.
  refine (proj2 constant_closes_no_trade sqrt_approx ma_2_3 1%positive 10000
            (1 # 1000) {[1%positive := constant_rows]} constant_rows 100
            _ _ _ _ _).
  - reflexivity.
  - reflexivity.
  - unfold df_len. simpl. lia.
  - by intros ?.
  - reflexivity.
Defined.

(** ** Wins and trades *)

Lemma wins_are_trades (xs : Series) :
  (count_true ((fun x => fl_gtb x (Fin 0)) <$> xs)
   <= length (List.filter (fun x => fl_neb x (Fin 0)) xs))%nat.
Proof.
  unfold count_true. induction xs as [|x xs IH]; [done|].
  cbn [fmap list_fmap List.filter].
  assert (fl_gtb x (Fin 0) = true -> fl_neb x (Fin 0) = true) as Himp.
  { unfold fl_gtb, fl_neb, fl_eqb. by destruct (fl_cmp x (Fin 0)) as [[]|]. }
  destruct (fl_gtb x (Fin 0)); simpl.
  - rewrite Himp by done. simpl. fold (@fmap list _ fl bool). lia.
  - destruct (fl_neb x (Fin 0)); simpl; fold (@fmap list _ fl bool); lia.
Qed.

Lemma length_filter_le {A} (f : A -> bool) (xs : list A) :
  (length (List.filter f xs) <= length xs)%nat.
Proof. induction xs as [|x xs IH]; simpl; [done|]. destruct (f x); simpl; lia. Qed.

Lemma win_rate_range wins trades :
  (wins <= trades)%nat ->
  exists q,
    (if (0 <? trades)%nat then fl_div (of_nat wins) (of_nat trades) else Fin 0)
    = Fin q
    /\ 0 <= q <= 1.
Proof.
  intros Hle. destruct (0 <? trades)%nat eqn:E.
  - apply Nat.ltb_lt in E. unfold of_nat at 1. rewrite fl_div_of_nat by done.
    eexists. split; [reflexivity|].
    assert (0 < inject_Z (Z.of_nat trades)) as Hpos.
    { change 0 with (inject_Z 0). rewrite <- Zlt_Qlt. lia. }
    assert (0 <= inject_Z (Z.of_nat wins)) as Hw.
    { change 0 with (inject_Z 0). rewrite <- Zle_Qle. lia. }
    assert (inject_Z (Z.of_nat wins) <= inject_Z (Z.of_nat trades)) as Hwt.
    { rewrite <- Zle_Qle. lia. }
    split.
    + apply Qle_shift_div_l; [done|]. by rewrite Qmult_0_l.
    + apply Qle_shift_div_r; [done|]. by rewrite Qmult_1_l.
  - exists 0. split; [done|]. split; [apply Qle_refl | done].
Qed.

(** X9.  Wins and trades.  Whatever frame [_calculate_metrics] is given,
    the win rate it reports is a number between 0 and 1 and the number
    of trades is at most the number of defined net returns; in the
    result of [backtest] the number of trades is less than the number of
    rows, the first row having no return. *)
Theorem win_rate_is_a_fraction :
  (forall np_sqrt results m,
     _calculate_metrics_frame np_sqrt results = inr m ->
     exists q,
       win_rate m = Fin q /\ 0 <= q <= 1
       /\ (total_trades m
           <= count (get_col "Strategy_Returns_Net" results))%nat)
  /\ (forall np_sqrt self data cap com (h : store) d,
        h !! data = Some d -> (0 < df_len d)%nat ->
        exists r h' q,
          backtest np_sqrt self data cap com h = inr (r, h')
          /\ win_rate (res_metrics r) = Fin q /\ 0 <= q <= 1
          /\ (total_trades (res_metrics r) < df_len d)%nat).
Proof.
  assert (forall np_sqrt results m,
            _calculate_metrics_frame np_sqrt results = inr m ->
            exists q,
              win_rate m = Fin q /\ 0 <= q <= 1
              /\ (total_trades m
                  <= count (get_col "Strategy_Returns_Net" results))%nat)
    as Hgeneral.
  { intros np_sqrt results m Hm.
    destruct (metrics_frame_inv _ _ _ Hm)
      as (lc & lb & _ & _ & _ & _ & _ & _ & _ & Htt & Hwr & _).
    destruct (win_rate_range
                (count_true ((fun x => fl_gtb x (Fin 0))
                   <$> dropna (get_col "Strategy_Returns_Net" results)))
                (total_trades m)) as (q & Hq & Hrange).
    { rewrite Htt. apply wins_are_trades. }
    exists q. rewrite Hwr. split; [done|]. split; [done|].
    rewrite Htt. apply length_filter_le. }
  split; [exact Hgeneral|].
  intros np_sqrt self data cap com h d Hd Hlen.
  rewrite (backtest_run _ _ _ _ _ _ d Hd).
  destruct (metrics_of_equity_frame np_sqrt self d cap com Hlen) as [m Hm].
  rewrite Hm. destruct (Hgeneral _ _ _ Hm) as (q & Hq & Hrange & Htt).
  do 3 eexists. split; [reflexivity|]. simpl.
  split; [done|]. split; [done|].
  eapply Nat.le_lt_trans; [exact Htt|].
  rewrite equity_frame_net. unfold count, df_len in *.
  pose proof (strategy_returns_net_lookup_0 (Close d)
                (position_column self (Close d)) com Hlen
                (length_position_column _ _)) as H0.
  pose proof (length_strategy_returns_net (Close d)
                (position_column self (Close d)) com
                (length_position_column _ _)) as Hn.
  destruct (strategy_returns_net (Close d) (position_column self (Close d)) com)
    as [|x zs]; [done|].
  simpl in H0. apply (inj Some) in H0. subst x.
  rewrite dropna_cons_NaN. simpl in Hn.
  pose proof (length_filter_le notna zs). unfold dropna. lia.
Qed.

Lemma win_rate_is_a_fraction_witness :
  exists r h' q,
    backtest sqrt_approx ma_2_3 1%positive 10000 (1 # 1000)
      {[1%positive := crossing_rows]} = inr (r, h')
    /\ win_rate (res_metrics r) = Fin q /\ 0 <= q <= 1
    /\ (total_trades (res_metrics r) < df_len crossing_rows)%nat.
Proof.
  refine (proj2 win_rate_is_a_fraction sqrt_approx ma_2_3 1%positive 10000
            (1 # 1000) {[1%positive := crossing_rows]} crossing_rows _ _).
  - reflexivity.
  - unfold df_len. simpl. lia.
Defined.

(** ** What a run depends on, and what it leaves behind *)

(** X10.  Only the closes count.  Two frames with the same [Close]
    column get the same metrics from [backtest] (or the same failure),
    whatever other columns they carry: the other price columns, the
    averages of the data source, or the columns an earlier run left. *)
Theorem backtest_reads_only_closes
    np_sqrt self data1 data2 cap com (h1 h2 : store) d1 d2 :
  h1 !! data1 = Some d1 -> h2 !! data2 = Some d2 -> Close d1 = Close d2 ->
  metrics_of (backtest np_sqrt self data1 cap com h1)
  = metrics_of (backtest np_sqrt self data2 cap com h2).
Proof.
  intros Hd1 Hd2 Hclose.
  rewrite (backtest_run _ _ _ _ _ _ d1 Hd1), (backtest_run _ _ _ _ _ _ d2 Hd2).
  assert (_calculate_metrics_frame np_sqrt (equity_frame self d1 cap com)
          = _calculate_metrics_frame np_sqrt (equity_frame self d2 cap com))
    as ->.
  { unfold _calculate_metrics_frame. cbv zeta.
    by rewrite !equity_frame_net, !equity_frame_cumulative,
      !equity_frame_portfolio, !equity_frame_buyhold_cumulative, Hclose. }
  by destruct (_calculate_metrics_frame np_sqrt _).
Qed.

Lemma backtest_reads_only_closes_witness :
  metrics_of (backtest sqrt_approx ma_2_3 1%positive 10000 (1 # 1000)
                {[1%positive := crossing_rows]})
  = metrics_of (backtest sqrt_approx ma_2_3 2%positive 10000 (1 # 1000)
                  {[2%positive := generate_signals_frame ma_2_3 crossing_rows]}).
Proof.
  apply (backtest_reads_only_closes sqrt_approx ma_2_3 1%positive 2%positive
           10000 (1 # 1000) {[1%positive := crossing_rows]}
           {[2%positive := generate_signals_frame ma_2_3 crossing_rows]}
           crossing_rows (generate_signals_frame ma_2_3 crossing_rows)).
  - reflexivity.
  - reflexivity.
  - reflexivity.
Defined.

Lemma frame_eq (d1 d2 : DataFrame) :
  Close d1 = Close d2 -> cols d1 = cols d2 -> d1 = d2.
Proof. destruct d1, d2. simpl. by intros -> ->. Qed.

Lemma cols_set_col_lookup n m s d :
  cols (set_col m s d) !! n = if decide (m = n) then Some s else cols d !! n.
Proof.
  unfold set_col. simpl. destruct (decide (m = n)) as [->|].
  - by rewrite lookup_insert_eq.
  - by rewrite lookup_insert_ne.
Qed.

Lemma generate_signals_frame_idempotent self d :
  generate_signals_frame self (generate_signals_frame self d)
  = generate_signals_frame self d.
Proof.
  rewrite (generate_signals_frame_eq self (generate_signals_frame self d)).
  rewrite Close_generate_signals.
  replace (df_len (generate_signals_frame self d)) with (df_len d)
    by (unfold df_len; by rewrite Close_generate_signals).
  rewrite (generate_signals_frame_eq self d).
  destruct (Z.of_nat (df_len d) <? long_window self)%Z;
    (apply frame_eq; [done|]; apply map_eq; intros n;
     rewrite !cols_set_col_lookup; by repeat destruct (decide _)).
Qed.

(** X11.  Signal generation can be repeated.  Calling [generate_signals]
    again on the frame it returned leaves the store exactly as the first
    call left it. *)
Theorem generate_signals_twice self data (h : store) d :
  h !! data = Some d ->
  (l ← generate_signals self data; generate_signals self l) h
  = generate_signals self data h.
Proof.
  intros Hd. unfold mbind, M_bind.
  rewrite (generate_signals_run self data h d Hd).
  rewrite (generate_signals_run self data _ (generate_signals_frame self d))
    by apply lookup_insert_eq.
  by rewrite insert_insert_eq, generate_signals_frame_idempotent.
Qed.

Lemma generate_signals_twice_witness :
  (l ← generate_signals ma_2_3 1%positive; generate_signals ma_2_3 l)
    ({[1%positive := crossing_rows]} : store)
  = generate_signals ma_2_3 1%positive {[1%positive := crossing_rows]}.
Proof.
  apply (generate_signals_twice ma_2_3 1%positive
           {[1%positive := crossing_rows]} crossing_rows).
  reflexivity.
Defined.

(** X12.  One run after another.  A second [backtest] on the same input,
    with any strategy and any settings, works on a frame of its own: the
    frame of the first result is still what the first run computed, the
    input is still what the caller passed, and the second result is what
    a run on the untouched input computes. *)
Theorem backtest_after_backtest
    np_sqrt self1 self2 data cap1 com1 cap2 com2 (h : store) d :
  h !! data = Some d -> (0 < df_len d)%nat ->
  exists r1 h1 r2 h2,
    backtest np_sqrt self1 data cap1 com1 h = inr (r1, h1)
    /\ backtest np_sqrt self2 data cap2 com2 h1 = inr (r2, h2)
    /\ res_data r1 <> res_data r2
    /\ h2 !! res_data r1 = Some (equity_frame self1 d cap1 com1)
    /\ h2 !! res_data r2 = Some (equity_frame self2 d cap2 com2)
    /\ h2 !! data = Some d
    /\ metrics_of (backtest np_sqrt self2 data cap2 com2 h1)
       = metrics_of (backtest np_sqrt self2 data cap2 com2 h).
Proof.
  intros Hd Hlen.
  assert (h !! fresh (dom h) = None) as Hfresh.
  { apply not_elem_of_dom, is_fresh. }
  assert (fresh (dom h) <> data) as Hne by congruence.
  set (h1 := <[fresh (dom h) := equity_frame self1 d cap1 com1]> h).
  assert (h1 !! data = Some d) as Hd1.
  { subst h1. by rewrite lookup_insert_ne. }
  assert (h1 !! fresh (dom h1) = None) as Hfresh1.
  { apply not_elem_of_dom, is_fresh. }
  assert (fresh (dom h1) <> fresh (dom h)) as Hne1.
  { intros E. rewrite E in Hfresh1. subst h1.
    by rewrite lookup_insert_eq in Hfresh1. }
  assert (fresh (dom h1) <> data) as Hne2 by congruence.
  rewrite (backtest_run _ _ _ _ _ _ d Hd).
  destruct (metrics_of_equity_frame np_sqrt self1 d cap1 com1 Hlen) as [m1 ->].
  fold h1.
  exists (mkBacktestResults (fresh (dom h)) (fresh (dom h)) m1 cap1 com1), h1.
  rewrite (backtest_run _ _ _ _ _ _ d Hd1), (backtest_run _ _ _ _ _ _ d Hd).
  destruct (metrics_of_equity_frame np_sqrt self2 d cap2 com2 Hlen) as [m2 ->].
  do 2 eexists. split; [reflexivity|]. split; [reflexivity|]. simpl.
  split; [done|].
  split.
  { rewrite lookup_insert_ne by done. subst h1. by rewrite lookup_insert_eq. }
  split; [by rewrite lookup_insert_eq|].
  split; [by rewrite lookup_insert_ne|done].
Qed.

Lemma backtest_after_backtest_witness :
  exists r1 h1 r2 h2,
    backtest sqrt_approx ma_2_3 1%positive 10000 (1 # 1000)
      {[1%positive := crossing_rows]} = inr (r1, h1)
    /\ backtest sqrt_approx ma_2_3 1%positive 500 0 h1 = inr (r2, h2)
    /\ res_data r1 <> res_data r2
    /\ h2 !! res_data r1
       = Some (equity_frame ma_2_3 crossing_rows 10000 (1 # 1000))
    /\ h2 !! res_data r2 = Some (equity_frame ma_2_3 crossing_rows 500 0)
    /\ h2 !! 1%positive = Some crossing_rows
    /\ metrics_of (backtest sqrt_approx ma_2_3 1%positive 500 0 h1)
       = metrics_of (backtest sqrt_approx ma_2_3 1%positive 500 0
                       {[1%positive := crossing_rows]}).
Proof.
  apply (backtest_after_backtest sqrt_approx ma_2_3 ma_2_3 1%positive
           10000 (1 # 1000) 500 0 {[1%positive := crossing_rows]} crossing_rows).
  - reflexivity.
  - unfold df_len. simpl. lia.
Defined.

(** ** The initial capital is a scale *)

Lemma Qcompare_scale k a b : 0 < k -> (k * a ?= k * b) = (a ?= b).
Proof.
  intros Hk. destruct (a ?= b) eqn:E.
  - apply Qeq_alt in E. apply Qeq_alt. by rewrite E.
  - apply Qlt_alt in E. apply Qlt_alt. by apply Qmult_lt_l.
  - apply Qgt_alt in E. apply Qgt_alt. by apply Qmult_lt_l.
Qed.

Lemma scale_PInf k : 0 < k -> fl_mul (Fin k) PInf = PInf.
Proof.
  intros Hk. change (fl_mul (Fin k) PInf) with (inf_of_sign (k ?= 0)).
  assert ((k ?= 0) = Gt) as -> by (by apply Qgt_alt). done.
Qed.

Lemma scale_NInf k : 0 < k -> fl_mul (Fin k) NInf = NInf.
Proof.
  intros Hk. change (fl_mul (Fin k) NInf) with (inf_of_sign (0 ?= k)).
  assert ((0 ?= k) = Lt) as -> by (by apply Qlt_alt). done.
Qed.

Lemma fl_cmp_scale k a b :
  0 < k -> fl_cmp (fl_mul (Fin k) a) (fl_mul (Fin k) b) = fl_cmp a b.
Proof.
  intros Hk.
  destruct a as [x| | |], b as [y| | |];
    rewrite ?(scale_PInf k Hk), ?(scale_NInf k Hk); try done.
  simpl. by rewrite Qcompare_scale.
Qed.

Lemma fl_max_scale k a b :
  0 < k ->
  fl_max (fl_mul (Fin k) a) (fl_mul (Fin k) b) = fl_mul (Fin k) (fl_max a b).
Proof.
  intros Hk. unfold fl_max, fl_ltb. rewrite fl_cmp_scale by done.
  by destruct (fl_cmp a b) as [[]|].
Qed.

Lemma isnan_scale k a : 0 < k -> isnan (fl_mul (Fin k) a) = isnan a.
Proof.
  intros Hk. destruct a; rewrite ?(scale_PInf k Hk), ?(scale_NInf k Hk); done.
Qed.

Lemma expanding_max_from_scale k best (xs : Series) :
  0 < k ->
  expanding_max_from (fl_mul (Fin k) <$> best) (fl_mul (Fin k) <$> xs)
  = fl_mul (Fin k) <$> expanding_max_from best xs.
Proof.
  intros Hk. revert best.
  induction xs as [|x xs IH]; intros best; [done|].
  rewrite fmap_cons, !expanding_max_from_cons, fmap_cons.
  assert (max_step (fl_mul (Fin k) <$> best) (fl_mul (Fin k) x)
          = fl_mul (Fin k) <$> max_step best x) as ->.
  { unfold max_step. rewrite isnan_scale by done.
    destruct (isnan x); [done|].
    destruct best as [b|]; [|done].
    change (Some (fl_max (fl_mul (Fin k) b) (fl_mul (Fin k) x))
            = Some (fl_mul (Fin k) (fl_max b x))).
    by rewrite fl_max_scale. }
  rewrite IH. f_equal. by destruct (max_step best x).
Qed.

Lemma Qeq_bool_scale k p : 0 < k -> Qeq_bool (k * p) 0 = Qeq_bool p 0.
Proof.
  intros Hk. destruct (Qeq_bool p 0) eqn:E.
  - apply Qeq_bool_eq in E. apply Qeq_eq_bool. rewrite E. ring.
  - apply Qeq_bool_nonzero. intros H. apply Qeq_bool_neq in E. apply E.
    apply Qmult_integral in H as [H | H]; [|done].
    rewrite H in Hk. by apply Qlt_irrefl in Hk.
Qed.

Lemma Qle_bool_scale k p : 0 < k -> Qle_bool 0 (k * p) = Qle_bool 0 p.
Proof.
  intros Hk. destruct (Qle_bool 0 p) eqn:E.
  - apply Qle_bool_iff in E. apply Qle_bool_iff. by apply Qmult_le_0_compat;
      [apply Qlt_le_weak|].
  - destruct (Qle_bool 0 (k * p)) eqn:E'; [|done].
    apply Qle_bool_iff in E'. rewrite <- E. symmetry. apply Qle_bool_iff.
    apply (Qmult_le_l _ _ k); [done|]. by rewrite Qmult_0_r.
Qed.

(** The drawdown of a row is a ratio: scaling the value and the peak by
    the same positive number does not change it. *)
Lemma drawdown_scale k x p :
  0 < k ->
  fl_div (fl_sub (fl_mul (Fin k) x) (fl_mul (Fin k) p)) (fl_mul (Fin k) p)
  ≈ fl_div (fl_sub x p) p.
Proof.
  intros Hk.
  destruct x as [a| | |], p as [b| | |];
    rewrite ?(scale_PInf k Hk), ?(scale_NInf k Hk); try done.
  - cbn [fl_mul fl_sub fl_add fl_opp fl_div]. rewrite Qeq_bool_scale by done.
    destruct (Qeq_bool b 0) eqn:E.
    + replace (k * a + - (k * b) ?= 0) with (a + - b ?= 0); [reflexivity|].
      rewrite <- (Qcompare_scale k (a + - b) 0) by done.
      apply Qcompare_comp; ring.
    + simpl. field. split.
      * by apply Qeq_bool_neq in E.
      * intros H. rewrite H in Hk. by apply Qlt_irrefl in Hk.
  - cbn [fl_mul fl_sub fl_add fl_opp fl_div]. rewrite Qle_bool_scale by done.
    reflexivity.
  - cbn [fl_mul fl_sub fl_add fl_opp fl_div]. rewrite Qle_bool_scale by done.
    reflexivity.
Qed.

#[export] Instance fl_cmp_proper : Proper (fl_eq ==> fl_eq ==> eq) fl_cmp.
Proof.
  intros a a' Ha b b' Hb.
  destruct a, a'; try done; destruct b, b'; try done.
  simpl in *. by rewrite Ha, Hb.
Qed.

Lemma fl_min_proper a a' b b' : a ≈ a' -> b ≈ b' -> fl_min a b ≈ fl_min a' b'.
Proof.
  intros Ha Hb. unfold fl_min, fl_ltb. rewrite (fl_cmp_proper b b' Hb a a' Ha).
  by destruct (fl_cmp b' a') as [[]|].
Qed.

Lemma series_min_proper (xs ys : Series) :
  Forall2 fl_eq xs ys -> series_min xs ≈ series_min ys.
Proof.
  intros H. unfold series_min.
  assert (Forall2 fl_eq (dropna xs) (dropna ys)) as Hdrop.
  { induction H as [|x y xs ys Hxy _ IH]; [constructor|].
    unfold dropna in *. simpl.
    destruct x, y; try done; simpl; by constructor. }
  destruct Hdrop as [|x y xs' ys' Hxy Hrest]; [done|].
  revert x y Hxy. induction Hrest as [|u v us vs Huv _ IH]; intros x y Hxy;
    [done|].
  simpl. apply IH. by apply fl_min_proper.
Qed.

Lemma max_drawdown_scale k (xs : Series) :
  0 < k ->
  _calculate_max_drawdown (fl_mul (Fin k) <$> xs) ≈ _calculate_max_drawdown xs.
Proof.
  intros Hk. unfold _calculate_max_drawdown, expanding_max. cbv zeta.
  change None with (fl_mul (Fin k) <$> (None : option fl)) at 1 2.
  rewrite expanding_max_from_scale by done.
  apply series_min_proper.
  generalize (expanding_max_from None xs). intros ps. revert ps.
  induction xs as [|x xs IH]; intros [|p ps]; try constructor.
  - by apply drawdown_scale.
  - apply IH.
Qed.

(** X13.  The initial capital is only a scale.  For a positive capital
    the maximum drawdown that [backtest] reports is the one of the
    [Cumulative_Returns] column, so it is the same number for every
    positive capital; all the other metrics are computed from columns
    that the capital does not enter and are identical. *)
Theorem metrics_do_not_depend_on_capital
    np_sqrt self data cap1 cap2 com (h : store) d :
  h !! data = Some d -> (0 < df_len d)%nat -> 0 < cap1 -> 0 < cap2 ->
  exists r1 h1 r2 h2,
    backtest np_sqrt self data cap1 com h = inr (r1, h1)
    /\ backtest np_sqrt self data cap2 com h = inr (r2, h2)
    /\ max_drawdown (res_metrics r1) ≈ max_drawdown (res_metrics r2)
    /\ total_return (res_metrics r1) = total_return (res_metrics r2)
    /\ buyhold_return (res_metrics r1) = buyhold_return (res_metrics r2)
    /\ excess_return (res_metrics r1) = excess_return (res_metrics r2)
    /\ volatility (res_metrics r1) = volatility (res_metrics r2)
    /\ sharpe_ratio (res_metrics r1) = sharpe_ratio (res_metrics r2)
    /\ win_rate (res_metrics r1) = win_rate (res_metrics r2)
    /\ total_trades (res_metrics r1) = total_trades (res_metrics r2).
Proof.
  intros Hd Hlen Hcap1 Hcap2. rewrite !(backtest_run _ _ _ _ _ _ d Hd).
  unfold _calculate_metrics_frame. cbv zeta.
  rewrite !equity_frame_net, !equity_frame_cumulative,
    !equity_frame_portfolio, !equity_frame_buyhold_cumulative.
  destruct (iloc_last_is_Some
              (cumulative_returns (Close d) (position_column self (Close d)) com))
    as [x ->].
  { by rewrite length_cumulative_returns by apply length_position_column. }
  destruct (iloc_last_is_Some (buyhold_cumulative (Close d))) as [y ->].
  { by rewrite length_buyhold_cumulative. }
  do 4 eexists. split; [reflexivity|]. split; [reflexivity|].
  cbn [res_metrics max_drawdown total_return buyhold_return excess_return
         volatility sharpe_ratio win_rate total_trades].
  split; [|done]. unfold portfolio_value.
  rewrite (max_drawdown_scale cap1), (max_drawdown_scale cap2) by done.
  reflexivity.
Qed.

Lemma metrics_do_not_depend_on_capital_witness :
  exists r1 h1 r2 h2,
    backtest sqrt_approx ma_2_3 1%positive 10000 (1 # 1000)
      {[1%positive := crossing_rows]} = inr (r1, h1)
    /\ backtest sqrt_approx ma_2_3 1%positive 250 (1 # 1000)
         {[1%positive := crossing_rows]} = inr (r2, h2)
    /\ max_drawdown (res_metrics r1) ≈ max_drawdown (res_metrics r2)
    /\ total_return (res_metrics r1) = total_return (res_metrics r2)
    /\ buyhold_return (res_metrics r1) = buyhold_return (res_metrics r2)
    /\ excess_return (res_metrics r1) = excess_return (res_metrics r2)
    /\ volatility (res_metrics r1) = volatility (res_metrics r2)
    /\ sharpe_ratio (res_metrics r1) = sharpe_ratio (res_metrics r2)
    /\ win_rate (res_metrics r1) = win_rate (res_metrics r2)
    /\ total_trades (res_metrics r1) = total_trades (res_metrics r2).
Proof.
  apply (metrics_do_not_depend_on_capital sqrt_approx ma_2_3 1%positive
           10000 250 (1 # 1000) {[1%positive := crossing_rows]} crossing_rows).
  - reflexivity.
  - unfold df_len. simpl. lia.
  - reflexivity.
  - reflexivity.
Defined.

(** ** Markets that move one way *)

































(** ** The verdicts shown to the user *)

Lemma fl_gtb_Fin a b : fl_gtb (Fin a) (Fin b) = true <-> b < a.
Proof.
  unfold fl_gtb. simpl. destruct (a ?= b) eqn:E; split; try done.
  - intros H. apply Qeq_alt in E. lra.
  - intros H. apply Qlt_alt in E. lra.
  - intros _. by apply Qgt_alt in E.
Qed.

Lemma fl_gtb_weaken e a b :
  b <= a -> fl_gtb e (Fin a) = true -> fl_gtb e (Fin b) = true.
Proof.
  intros Hba. destruct e as [q| | |]; try done.
  rewrite !fl_gtb_Fin. lra.
Qed.

Lemma rating_by_sign m :
  (performance_rating m = "🏆 Excellent"%string
   \/ performance_rating m = "✅ Good"%string)
  <-> fl_gtb (excess_return m) (Fin 0) = true.
Proof.
  unfold performance_rating. cbv zeta.
  pose proof (fl_gtb_weaken (excess_return m) (5 # 100) 0 ltac:(lra)) as H5.
  destruct (fl_gtb (excess_return m) (Fin (5 # 100))).
  { rewrite H5 by done. split; [done | by left]. }
  destruct (fl_gtb (excess_return m) (Fin 0)).
  { split; [done | by right]. }
  destruct (fl_gtb (excess_return m) (Fin (-2 # 100)));
    (split; [by intros [|] | done]).
Qed.

Lemma print_results_last_line
    (format : string -> fl -> string) (format_int : string -> nat -> string)
    (name : string) (r : BacktestResults) :
  last (print_results format format_int name (Some r))
  = Some (newline +:+ "🎉 Strategy beats buy & hold by "
            +:+ format ".2%"%string (excess_return (res_metrics r)) +:+ "!")%string
  <-> fl_gtb (excess_return (res_metrics r)) (Fin 0) = true.
Proof.
  unfold print_results. cbv zeta. rewrite last_app.
  destruct (fl_gtb (excess_return (res_metrics r)) (Fin 0)); [done|].
  cbn [last]. split; [|done]. intros [=].
Qed.

Lemma success_needs_excess m body :
  fst (_display_performance_interpretation m) = st_success body ->
  fl_gtb (excess_return m) (Fin 0) = true.
Proof.
  unfold _display_performance_interpretation. cbv zeta.
  pose proof (fl_gtb_weaken (excess_return m) (5 # 100) 0 ltac:(lra)) as H5.
  destruct (fl_gtb (excess_return m) (Fin (5 # 100))); [by rewrite H5|].
  destruct (fl_gtb (excess_return m) (Fin 0)); [done|].
  cbn [andb].
  by destruct (fl_gtb (excess_return m) (Fin (-2 # 100)) &&
               fl_gtb (sharpe_ratio m) (Fin 0)).
Qed.

Lemma poor_rating_shows_error m :
  performance_rating m = "❌ Poor"%string ->
  exists body, fst (_display_performance_interpretation m) = st_error body.
Proof.
  unfold performance_rating, _display_performance_interpretation. cbv zeta.
  destruct (fl_gtb (excess_return m) (Fin (5 # 100))); [done|].
  destruct (fl_gtb (excess_return m) (Fin 0)); [done|].
  destruct (fl_gtb (excess_return m) (Fin (-2 # 100))); [done|].
  intros _. by eexists.
Qed.

(** X16.  One sign, three reports.  The summary table rates a result
    Excellent or Good exactly when its excess return is above 0, which
    is exactly when [print_results] ends with the line saying that the
    strategy beats buy and hold.  The interpretation panel shows a
    success only for such a result, and shows an error for every result
    the table rates Poor. *)
Theorem verdicts_agree_on_the_sign
    (format : string -> fl -> string) (format_int : string -> nat -> string)
    (name : string) (r : BacktestResults) :
  let m := res_metrics r in
  let beats := fl_gtb (excess_return m) (Fin 0) in
  ((performance_rating m = "🏆 Excellent"%string
    \/ performance_rating m = "✅ Good"%string) <-> beats = true)
  /\ (last (print_results format format_int name (Some r))
      = Some (newline +:+ "🎉 Strategy beats buy & hold by "
                +:+ format ".2%"%string (excess_return m) +:+ "!")%string
      <-> beats = true)
  /\ ((exists body, fst (_display_performance_interpretation m) = st_success body)
      -> beats = true)
  /\ (performance_rating m = "❌ Poor"%string ->
      exists body, fst (_display_performance_interpretation m) = st_error body).
Proof.
  intros m beats. subst m beats.
  split; [apply rating_by_sign|].
  split; [apply print_results_last_line|].
  split; [|apply poor_rating_shows_error].
  intros [body Hbody]. by apply (success_needs_excess _ body).
Qed.




(** ** The drawdown chart *)

Lemma fl_mul_comm a b : fl_mul a b ≈ fl_mul b a.
Proof.
  destruct a, b; simpl; try reflexivity. ring.
Qed.

Lemma fl_min_scale k a b :
  0 < k ->
  fl_min (fl_mul (Fin k) a) (fl_mul (Fin k) b) = fl_mul (Fin k) (fl_min a b).
Proof.
  intros Hk. unfold fl_min, fl_ltb. rewrite fl_cmp_scale by done.
  by destruct (fl_cmp b a) as [[]|].
Qed.

Lemma dropna_scale k (xs : Series) :
  0 < k -> dropna (fl_mul (Fin k) <$> xs) = fl_mul (Fin k) <$> dropna xs.
Proof.
  intros Hk. unfold dropna. induction xs as [|x xs IH]; [done|].
  rewrite fmap_cons. cbn [List.filter].
  replace (notna (fl_mul (Fin k) x)) with (notna x)
    by (unfold notna; by rewrite isnan_scale).
  destruct (notna x); [by rewrite fmap_cons, IH | done].
Qed.

Lemma series_min_scale k (xs : Series) :
  0 < k ->
  series_min (fl_mul (Fin k) <$> xs) = fl_mul (Fin k) (series_min xs).
Proof.
  intros Hk. unfold series_min. rewrite dropna_scale by done.
  destruct (dropna xs) as [|x rest]; [done|].
  rewrite fmap_cons. revert x.
  induction rest as [|y rest IH]; intros x; [done|].
  rewrite fmap_cons. cbn [foldl]. by rewrite fl_min_scale, IH.
Qed.

(** X18.  The drawdown chart and the metric.  The chart recomputes the
    drawdown of every row from the [Portfolio_Value] column of the
    result; its lowest point is the reported [max_drawdown], in
    percent. *)
Theorem drawdown_chart_bottoms_at_max_drawdown
    np_sqrt self data cap com (h : store) d :
  h !! data = Some d -> (0 < df_len d)%nat ->
  exists r h' strategy_data,
    backtest np_sqrt self data cap com h = inr (r, h')
    /\ h' !! res_data r = Some strategy_data
    /\ series_min (create_drawdown_chart strategy_data)
       ≈ fl_mul (max_drawdown (res_metrics r)) (Fin 100).
Proof.
  intros Hd Hlen. rewrite (backtest_run _ _ _ _ _ _ d Hd).
  destruct (metrics_of_equity_frame np_sqrt self d cap com Hlen) as [m Hm].
  rewrite Hm.
  destruct (metrics_frame_inv _ _ _ Hm) as (_ & _ & _ & _ & _ & _ & _ & Hdd & _).
  do 3 eexists. split; [reflexivity|]. simpl.
  split; [by rewrite lookup_insert_eq|].
  rewrite Hdd. unfold create_drawdown_chart, _calculate_max_drawdown. cbv zeta.
  set (dd := zip_with fl_div _ _).
  transitivity (series_min (fl_mul (Fin 100) <$> dd)).
  - apply series_min_proper. apply Forall2_fmap, Forall2_same_length_lookup.
    split; [done|]. intros i x y Hx Hy. assert (x = y) as -> by congruence.
    apply fl_mul_comm.
  - rewrite series_min_scale by done. apply fl_mul_comm.
Qed.

Lemma drawdown_chart_bottoms_at_max_drawdown_witness :
  exists r h' strategy_data,
    backtest sqrt_approx ma_2_3 1%positive 10000 (1 # 1000)
      {[1%positive := crossing_rows]} = inr (r, h')
    /\ h' !! res_data r = Some strategy_data
    /\ series_min (create_drawdown_chart strategy_data)
       ≈ fl_mul (max_drawdown (res_metrics r)) (Fin 100).
Proof.
  apply (drawdown_chart_bottoms_at_max_drawdown sqrt_approx ma_2_3 1%positive
           10000 (1 # 1000) {[1%positive := crossing_rows]} crossing_rows).
  - reflexivity.
  - unfold df_len. simpl. lia.
Defined.

(** ** The batch of the dashboard *)

Lemma init_accepts short long n self :
  init short long (Some n) = inr self ->
  (2 <= short < long)%Z /\ self = mkStrategy n short long.
Proof.
  unfold init. destruct (short >=? long)%Z eqn:E1; [done|].
  destruct (short <? 2)%Z eqn:E2; [done|]. intros [= <-]. split; [lia | done].
Qed.

Lemma init_valid short long n :
  (2 <= short < long)%Z -> init short long (Some n) = inr (mkStrategy n short long).
Proof.
  intros Hw. unfold init.
  destruct (short >=? long)%Z eqn:E1; [lia|].
  by destruct (short <? 2)%Z eqn:E2; [lia|].
Qed.

Section Batch.

Variable np_sqrt : fl -> fl.
Variable load_and_cache_data : string -> string -> M loc.
Variable analysis_config : AnalysisConfig.

Lemma run_strategy_step symbol data (all_results : Results) strategy_config
    (h : store) d :
  h !! data = Some d -> (0 < df_len d)%nat ->
  strategy_config ∈ cfg_strategies analysis_config ->
  exists all_results' h',
    run_strategy np_sqrt analysis_config symbol data all_results strategy_config h
    = inr (all_results', h')
    /\ h' !! data = Some d
    /\ (all_results' = all_results
        /\ ~ (cfg_type strategy_config = "ma"%string
              /\ (2 <= cfg_short strategy_config < cfg_long strategy_config)%Z)
        \/ exists e,
             all_results'
             = <[symbol := <[cfg_name strategy_config := e]>
                             (default ∅ (all_results !! symbol))]> all_results
             /\ genuine_entry np_sqrt analysis_config (cfg_name strategy_config) e).
Proof.
  intros Hd Hlen Hin. unfold run_strategy, try_except. cbv zeta.
  destruct (String.eqb (cfg_type strategy_config) "ma") eqn:Etype.
  2: { apply String.eqb_neq in Etype. exists all_results, h.
       split; [done|]. split; [done|]. left. split; [done|]. by intros [? _]. }
  apply String.eqb_eq in Etype.
  destruct (init (cfg_short strategy_config) (cfg_long strategy_config)
              (Some (cfg_name strategy_config))) as [err|self] eqn:Einit.
  { exists all_results, h. split; [done|]. split; [done|]. left.
    split; [done|]. intros [_ Hw]. by rewrite init_valid in Einit. }
  apply init_accepts in Einit as [Hw ->].
  assert (h !! fresh (dom h) = None) as Hfresh.
  { apply not_elem_of_dom, is_fresh. }
  assert (fresh (dom h) <> data) as Hne by congruence.
  set (self := mkStrategy _ _ _).
  set (h1 := <[fresh (dom h) := d]> h).
  assert (h1 !! fresh (dom h) = Some d) as Hcopy.
  { subst h1. by rewrite lookup_insert_eq. }
  assert (h1 !! fresh (dom h1) = None) as Hfresh1.
  { apply not_elem_of_dom, is_fresh. }
  assert (fresh (dom h1) <> data) as Hne1.
  { intros E. rewrite E in Hfresh1. subst h1.
    rewrite lookup_insert_ne in Hfresh1 by done. congruence. }
  unfold mbind, M_bind, df_copy. rewrite Hd. cbv zeta. fold h1.
  rewrite (backtest_run _ _ _ _ _ _ d Hcopy).
  destruct (metrics_of_equity_frame np_sqrt self d
              (cfg_initial_capital analysis_config)
              (cfg_commission analysis_config) Hlen) as [m Hm].
  rewrite Hm. do 2 eexists. split; [reflexivity|]. split.
  { rewrite lookup_insert_ne by done. subst h1. by rewrite lookup_insert_ne. }
  right. eexists. split; [reflexivity|].
  exists strategy_config, d. simpl.
  split; [done|]. split; [done|]. split; [done|]. split; [lia|].
  split; [done|]. split; [done|]. split; [exact Hm|]. by repeat split.
Qed.

Lemma run_strategies_loop symbols symbol data d :
  symbol ∈ symbols -> (0 < df_len d)%nat ->
  forall strategies (all_results : Results) (h : store),
    (forall sc, sc ∈ strategies -> sc ∈ cfg_strategies analysis_config) ->
    h !! data = Some d ->
    sound_results np_sqrt analysis_config symbols all_results ->
    exists all_results' h',
      for_each strategies (run_strategy np_sqrt analysis_config symbol data)
        all_results h
      = inr (all_results', h')
      /\ sound_results np_sqrt analysis_config symbols all_results'.
Proof.
  intros Hsym Hlen strategies.
  induction strategies as [|sc strategies IH]; intros all_results h Hsub Hd Hsound.
  { by exists all_results, h. }
  destruct (run_strategy_step symbol data all_results sc h d Hd Hlen)
    as (res1 & h1 & Hrun & Hd1 & Hres1).
  { apply Hsub. by left. }
  destruct (IH res1 h1) as (res2 & h2 & Hloop & Hsound2).
  { intros sc' Hsc'. apply Hsub. by right. }
  { done. }
  { destruct Hres1 as [[-> _] | (e & -> & He)]; [done|].
    intros symbol' entries name e' Hentries He'.
    destruct (decide (symbol = symbol')) as [<-|Hne].
    - rewrite lookup_insert_eq in Hentries. injection Hentries as <-.
      split; [done|].
      destruct (decide (cfg_name sc = name)) as [<-|Hname].
      + rewrite lookup_insert_eq in He'. by injection He' as <-.
      + rewrite lookup_insert_ne in He' by done.
        destruct (all_results !! symbol) as [old|] eqn:Eold; [|done].
        by apply (Hsound symbol old).
    - rewrite lookup_insert_ne in Hentries by done.
      by apply (Hsound symbol' entries). }
  exists res2, h2. split; [|done].
  cbn [for_each]. unfold mbind, M_bind at 1. by rewrite Hrun.
Qed.

Lemma run_symbol_step symbols symbol (all_results : Results) (h : store) :
  symbol ∈ symbols -> sound_results np_sqrt analysis_config symbols all_results ->
  exists all_results' h',
    run_symbol np_sqrt load_and_cache_data analysis_config all_results symbol h
    = inr (all_results', h')
    /\ sound_results np_sqrt analysis_config symbols all_results'.
Proof.
  intros Hsym Hsound. unfold run_symbol, try_except.
  unfold mbind, M_bind, deref, mret, M_ret.
  destruct (load_and_cache_data symbol (cfg_period analysis_config) h)
    as [err|[data h1]]; [by exists all_results, h|].
  destruct (h1 !! data) as [d|] eqn:Hd; [|by exists all_results, h].
  destruct (df_len d =? 0)%nat eqn:Elen; [by exists all_results, h1|].
  apply Nat.eqb_neq in Elen.
  destruct (run_strategies_loop symbols symbol data d Hsym ltac:(lia)
              (cfg_strategies analysis_config) (<[symbol := ∅]> all_results) h1)
    as (res & h2 & Hloop & Hres); [done | done | |].
  { intros symbol' entries name e Hentries He.
    destruct (decide (symbol = symbol')) as [<-|Hne].
    - rewrite lookup_insert_eq in Hentries. by injection Hentries as <-.
    - rewrite lookup_insert_ne in Hentries by done.
      by apply (Hsound symbol' entries). }
  rewrite Hloop. by exists res, h2.
Qed.

Lemma run_symbols_loop symbols :
  forall todo (all_results : Results) (h : store),
    (forall symbol, symbol ∈ todo -> symbol ∈ symbols) ->
    sound_results np_sqrt analysis_config symbols all_results ->
    exists all_results' h',
      for_each todo (run_symbol np_sqrt load_and_cache_data analysis_config)
        all_results h
      = inr (all_results', h')
      /\ sound_results np_sqrt analysis_config symbols all_results'.
Proof.
  induction todo as [|symbol todo IH]; intros all_results h Hsub Hsound.
  { by exists all_results, h. }
  destruct (run_symbol_step symbols symbol all_results h) as (res1 & h1 & Hrun & H1).
  { apply Hsub. by left. }
  { done. }
  destruct (IH res1 h1) as (res2 & h2 & Hloop & H2); [|done|].
  { intros s Hs. apply Hsub. by right. }
  exists res2, h2. split; [|done].
  cbn [for_each]. unfold mbind, M_bind at 1. by rewrite Hrun.
Qed.

Lemma has_entry_kept symbol data (all_results : Results) strategy_config
    (h : store) d name :
  h !! data = Some d -> (0 < df_len d)%nat ->
  strategy_config ∈ cfg_strategies analysis_config ->
  is_Some (all_results !! symbol) ->
  exists all_results' h',
    run_strategy np_sqrt analysis_config symbol data all_results strategy_config h
    = inr (all_results', h')
    /\ h' !! data = Some d
    /\ is_Some (all_results' !! symbol)
    /\ (has_entry all_results symbol name -> has_entry all_results' symbol name)
    /\ (cfg_type strategy_config = "ma"%string ->
        (2 <= cfg_short strategy_config < cfg_long strategy_config)%Z ->
        has_entry all_results' symbol (cfg_name strategy_config)).
Proof.
  intros Hd Hlen Hin [entries Hentries].
  destruct (run_strategy_step symbol data all_results strategy_config h d
              Hd Hlen Hin) as (res & h' & Hrun & Hd' & Hres).
  exists res, h'. split; [done|]. split; [done|].
  destruct Hres as [[-> Hinvalid] | (e & -> & He)].
  - split; [by eexists|]. split; [done|]. intros Ht Hw. by destruct Hinvalid.
  - rewrite Hentries. simpl. split; [by rewrite lookup_insert_eq|]. split.
    + intros (entries' & e' & Hentries' & He').
      assert (entries' = entries) as -> by congruence.
      destruct (decide (cfg_name strategy_config = name)) as [<-|Hne].
      * exists (<[cfg_name strategy_config := e]> entries), e.
        by rewrite !lookup_insert_eq.
      * exists (<[cfg_name strategy_config := e]> entries), e'.
        rewrite lookup_insert_eq. by rewrite lookup_insert_ne.
    + intros _ _. exists (<[cfg_name strategy_config := e]> entries), e.
      by rewrite !lookup_insert_eq.
Qed.

Lemma run_strategies_complete symbol data d :
  (0 < df_len d)%nat ->
  forall strategies (all_results : Results) (h : store),
    (forall sc, sc ∈ strategies -> sc ∈ cfg_strategies analysis_config) ->
    h !! data = Some d ->
    is_Some (all_results !! symbol) ->
    exists all_results' h',
      for_each strategies (run_strategy np_sqrt analysis_config symbol data)
        all_results h
      = inr (all_results', h')
      /\ is_Some (all_results' !! symbol)
      /\ (forall name, has_entry all_results symbol name ->
                       has_entry all_results' symbol name)
      /\ (forall sc, sc ∈ strategies ->
                     cfg_type sc = "ma"%string ->
                     (2 <= cfg_short sc < cfg_long sc)%Z ->
                     has_entry all_results' symbol (cfg_name sc)).
Proof.
  intros Hlen strategies.
  induction strategies as [|sc strategies IH]; intros all_results h Hsub Hd Hsome.
  { exists all_results, h. split; [done|]. split; [done|]. split; [done|].
    intros sc Hsc. by apply elem_of_nil in Hsc. }
  assert (sc ∈ cfg_strategies analysis_config) as Hin by (apply Hsub; by left).
  destruct (has_entry_kept symbol data all_results sc h d (cfg_name sc)
              Hd Hlen Hin Hsome) as (res1 & h1 & Hrun & Hd1 & Hsome1 & _ & Hnew).
  destruct (IH res1 h1) as (res2 & h2 & Hloop & Hsome2 & Hkept & Hall);
    [|done|done|].
  { intros sc' Hsc'. apply Hsub. by right. }
  exists res2, h2. split.
  { cbn [for_each]. unfold mbind, M_bind at 1. by rewrite Hrun. }
  split; [done|]. split.
  - intros name Hname. apply Hkept.
    destruct (has_entry_kept symbol data all_results sc h d name
                Hd Hlen Hin Hsome) as (res1' & h1' & Hrun' & _ & _ & Hk & _).
    rewrite Hrun in Hrun'. injection Hrun' as <- <-. by apply Hk.
  - intros sc' Hsc' Ht Hw. apply elem_of_cons in Hsc' as [-> | Hsc'].
    + apply Hkept. by apply Hnew.
    + by apply Hall.
Qed.

Lemma run_symbol_loaded symbol (all_results all_results' : Results)
    (h h1 h2 : store) data d :
  load_and_cache_data symbol (cfg_period analysis_config) h = inr (data, h1) ->
  h1 !! data = Some d -> (0 < df_len d)%nat ->
  for_each (cfg_strategies analysis_config)
    (run_strategy np_sqrt analysis_config symbol data)
    (<[symbol := ∅]> all_results) h1
  = inr (all_results', h2) ->
  run_symbol np_sqrt load_and_cache_data analysis_config all_results symbol h
  = inr (all_results', h2).
Proof.
  intros Hload Hd Hlen Hloop. unfold run_symbol, try_except.
  unfold mbind, M_bind, deref, mret, M_ret. rewrite Hload, Hd.
  destruct (df_len d =? 0)%nat eqn:Elen; [apply Nat.eqb_eq in Elen; lia|].
  by rewrite Hloop.
Qed.

End Batch.

(** X19.  The batch of the dashboard.  Whatever the data source does
    and whatever the configuration holds, [run_analysis] raises nothing
    and returns a result; and every entry of that result belongs to a
    configured symbol and to a configured strategy whose windows the
    constructor accepted, and holds the metrics of the backtest of a
    price table with at least one row, under the configured capital and
    commission, computed in a frame that is not the table the entry
    keeps as its data.  So a configuration that the constructor
    rejects, a failing data source and a table without rows stop
    nothing, and no entry comes from them. *)
Theorem run_analysis_results
    (np_sqrt : fl -> fl) (load_and_cache_data : string -> string -> M loc)
    (analysis_config : AnalysisConfig) (h : store) :
  exists (all_results : Results) (h' : store),
    run_analysis np_sqrt load_and_cache_data analysis_config h
    = inr (all_results, h')
    /\ forall symbol entries name e,
         all_results !! symbol = Some entries -> entries !! name = Some e ->
         symbol ∈ cfg_symbols analysis_config
         /\ genuine_entry np_sqrt analysis_config name e.
Proof.
  unfold run_analysis.
  destruct (run_symbols_loop np_sqrt load_and_cache_data analysis_config
              (cfg_symbols analysis_config) (cfg_symbols analysis_config) ∅ h)
    as (res & h' & Hrun & Hsound); [done | done |].
  by exists res, h'.
Qed.

(** X20.  A batch of one symbol.  When the data source returns a table
    with at least one row, the result of [run_analysis] has an entry
    under every name of a configured moving-average strategy with
    windows [2 <= short < long], each of them genuine; a configuration
    the constructor rejects does not keep the others from running. *)
Theorem run_analysis_covers_the_strategies
    (np_sqrt : fl -> fl) (load_and_cache_data : string -> string -> M loc)
    (analysis_config : AnalysisConfig) (h h1 : store) symbol data d :
  cfg_symbols analysis_config = [symbol] ->
  load_and_cache_data symbol (cfg_period analysis_config) h = inr (data, h1) ->
  h1 !! data = Some d -> (0 < df_len d)%nat ->
  exists (all_results : Results) (h' : store) entries,
    run_analysis np_sqrt load_and_cache_data analysis_config h
    = inr (all_results, h')
    /\ all_results !! symbol = Some entries
    /\ forall strategy_config,
         strategy_config ∈ cfg_strategies analysis_config ->
         cfg_type strategy_config = "ma"%string ->
         (2 <= cfg_short strategy_config < cfg_long strategy_config)%Z ->
         exists e,
           entries !! cfg_name strategy_config = Some e
           /\ genuine_entry np_sqrt analysis_config (cfg_name strategy_config) e.
Proof.
  intros Hsymbols Hload Hd Hlen.
  destruct (run_strategies_loop np_sqrt analysis_config [symbol] symbol data d
              ltac:(by left) Hlen (cfg_strategies analysis_config)
              (<[symbol := ∅]> ∅) h1)
    as (res & h2 & Hloop & Hsound); [done | done | |].
  { intros symbol' entries name e Hentries He.
    destruct (decide (symbol = symbol')) as [<-|Hne].
    - rewrite lookup_insert_eq in Hentries. by injection Hentries as <-.
    - by rewrite lookup_insert_ne in Hentries. }
  destruct (run_strategies_complete np_sqrt analysis_config symbol data d Hlen
              (cfg_strategies analysis_config) (<[symbol := ∅]> ∅) h1)
    as (res' & h2' & Hloop' & [entries Hentries] & _ & Hall); [done | done | |].
  { rewrite lookup_insert_eq. by eexists. }
  rewrite Hloop in Hloop'. injection Hloop' as <- <-.
  exists res, h2, entries. split.
  { unfold run_analysis. rewrite Hsymbols. cbn [for_each].
    unfold mbind, M_bind.
    by rewrite (run_symbol_loaded np_sqrt load_and_cache_data analysis_config
                  symbol ∅ res h h1 h2 data d). }
  split; [done|].
  intros sc Hsc Ht Hw.
  destruct (Hall sc Hsc Ht Hw) as (entries' & e & Hentries' & He).
  assert (entries' = entries) as -> by congruence.
  exists e. split; [done|]. by apply (Hsound symbol entries).
Qed.

Lemma run_analysis_covers_the_strategies_witness :
  exists (all_results : Results) (h' : store) entries,
    run_analysis sqrt_approx load_first small_batch {[1%positive := crossing_rows]}
    = inr (all_results, h')
    /\ all_results !! "SPY"%string = Some entries
    /\ forall strategy_config,
         strategy_config ∈ cfg_strategies small_batch ->
         cfg_type strategy_config = "ma"%string ->
         (2 <= cfg_short strategy_config < cfg_long strategy_config)%Z ->
         exists e,
           entries !! cfg_name strategy_config = Some e
           /\ genuine_entry sqrt_approx small_batch (cfg_name strategy_config) e.
Proof.
  apply (run_analysis_covers_the_strategies sqrt_approx load_first small_batch
           {[1%positive := crossing_rows]} {[1%positive := crossing_rows]}
           "SPY"%string 1%positive crossing_rows).
  - reflexivity.
  - reflexivity.
  - reflexivity.
  - unfold df_len. simpl. lia.
Defined.

(** ** The equity curve between two trades *)

Lemma product_upto_extend (xs : Series) j i :
  (j <= i)%nat ->
  product_upto xs i
  = foldl fl_mul (product_upto xs j) (dropna (take (i - j) (drop (S j) xs))).
Proof.
  intros Hji. unfold product_upto.
  replace (S i) with (S j + (i - j))%nat by lia.
  rewrite <- take_take_drop. unfold dropna.
  by rewrite List.filter_app, foldl_app.
Qed.

Lemma Qabs_self_difference p : Qabs (p + - p) == 0.
Proof. by rewrite Qplus_opp_r. Qed.

(** The growth factors of the rows after [j], up to row [i], while the
    position held stays [p]: for [p = 1] they multiply up to the ratio
    of the two closes, for [p = 0] to 1. *)
Lemma held_factors close (pos : Series) com p j i a :
  Forall (fun c => ~ c == 0) close ->
  (j <= i)%nat -> (i < length close)%nat ->
  (forall k, (j <= k <= i)%nat -> position_lagged pos !! k = Some (Fin p)) ->
  exists b,
    foldl fl_mul (Fin a)
      (dropna (take (i - j)
                 (drop (S j) (fl_add (Fin 1)
                                <$> strategy_returns_net close pos com))))
    = Fin b
    /\ forall cj ci, close !! j = Some cj -> close !! i = Some ci ->
         (p == 1 -> b * cj == a * ci) /\ (p == 0 -> b == a).
Proof.
  intros Hclose Hji. induction Hji as [|i Hji IH]; intros Hi Hheld.
  - rewrite Nat.sub_diag. exists a. split; [done|].
    intros cj ci Hcj Hci. assert (cj = ci) as -> by congruence. by split.
  - destruct IH as (b & Hb & Hratio); [lia | intros k Hk; apply Hheld; lia|].
    destruct (lookup_lt_is_Some_2 close i) as [c Hc]; [lia|].
    destruct (lookup_lt_is_Some_2 close (S i)) as [c' Hc']; [lia|].
    assert (~ c == 0) as Hnz by (by apply (Forall_lookup_1 _ _ _ _ Hclose Hc)).
    pose proof (strategy_returns_net_lookup_S close pos com i c c' (Fin p) (Fin p)
                  Hc Hc' Hnz (Hheld i ltac:(lia)) (Hheld (S i) ltac:(lia)))
      as Hrow.
    replace (S i - j)%nat with (S (i - j)) by lia.
    erewrite take_S_r; last first.
    { rewrite lookup_drop, list_lookup_fmap.
      replace (S j + (i - j))%nat with (S i) by lia. by rewrite Hrow. }
    unfold dropna in *. rewrite List.filter_app, foldl_app, Hb.
    eexists. split; [reflexivity|].
    intros cj ci Hcj Hci. assert (ci = c') as -> by congruence.
    destruct (Hratio cj c Hcj Hc) as [Hone Hzero].
    split; intros Hp.
    + specialize (Hone Hp). rewrite Qabs_self_difference, Hp.
      transitivity (b * cj * (c' / c)); [field; done|].
      rewrite Hone. field. done.
    + specialize (Hzero Hp). rewrite Qabs_self_difference, Hp, Hzero. ring.
Qed.

Lemma scaled_is_finite cap x v :
  fl_mul (Fin cap) x = Fin v -> exists q, x = Fin q /\ v = cap * q.
Proof.
  destruct x as [q| | |]; simpl; try done.
  - intros [= <-]. by eexists.
  - by destruct (cap ?= 0).
  - by destruct (0 ?= cap).
Qed.

(** X21.  Between two trades.  From a row [j] with a finite portfolio
    value to a later row [i], while the position held does not change:
    held at 1, the portfolio value grows by the ratio of the two
    closes; held at 0, it stays the same. *)
Theorem equity_between_trades d cap com j i cj ci vj :
  let r := _calculate_returns_frame d cap com in
  Forall (fun c => ~ c == 0) (Close d) ->
  (j <= i)%nat -> Close d !! j = Some cj -> Close d !! i = Some ci ->
  get_col "Portfolio_Value" r !! j = Some (Fin vj) ->
  ((forall k, (j <= k <= i)%nat ->
              get_col "Position_Lagged" r !! k = Some (Fin 1)) ->
   exists vi, get_col "Portfolio_Value" r !! i = Some (Fin vi)
              /\ vi * cj == vj * ci)
  /\ ((forall k, (j <= k <= i)%nat ->
                 get_col "Position_Lagged" r !! k = Some (Fin 0)) ->
      exists vi, get_col "Portfolio_Value" r !! i = Some (Fin vi)
                 /\ vi == vj).
Proof.
  intros r Hclose Hji Hcj Hci Hvj. subst r.
  rewrite position_lagged_col. rewrite portfolio_value_col in *.
  unfold portfolio_value, cumulative_returns in *.
  set (pos := get_col "Position" d) in *.
  set (net := strategy_returns_net (Close d) pos com) in *.
  rewrite list_lookup_fmap in Hvj.
  destruct (cumprod (fl_add (Fin 1) <$> net) !! j) as [xj|] eqn:Hxj; [|done].
  simpl in Hvj. apply (inj Some) in Hvj.
  destruct (scaled_is_finite _ _ _ Hvj) as (q & -> & ->).
  assert (i < length (Close d))%nat as Hi by (by apply lookup_lt_Some in Hci).
  assert (forall p,
            (forall k, (j <= k <= i)%nat ->
                       position_lagged pos !! k = Some (Fin p)) ->
            exists vi,
              (fl_mul (Fin cap) <$> cumprod (fl_add (Fin 1) <$> net)) !! i
              = Some (Fin vi)
              /\ (p == 1 -> vi * cj == cap * q * ci)
              /\ (p == 0 -> vi == cap * q)) as Hgeneral.
  { intros p Hheld.
    destruct (held_factors (Close d) pos com p j i q Hclose Hji Hi Hheld)
      as (b & Hb & Hratio).
    fold net in Hb.
    destruct (lookup_lt_is_Some_2 (fl_add (Fin 1) <$> net) j) as [fj Hfj].
    { apply lookup_lt_Some in Hxj. by rewrite length_cumprod in Hxj. }
    destruct (cumprod_lookup _ j fj Hfj) as (v & Hv & Hnan & Hprod).
    rewrite Hxj in Hv. injection Hv as <-.
    assert (fj <> NaN) as Hdef by (intros E; by specialize (Hnan E)).
    specialize (Hprod Hdef).
    destruct (decide (i = j)) as [->|Hne].
    { exists (cap * q). rewrite list_lookup_fmap, Hxj.
      split; [done|]. assert (cj = ci) as -> by congruence. by split. }
    assert (exists fi, (fl_add (Fin 1) <$> net) !! i = Some (Fin fi)) as [fi Hfi].
    { destruct i as [|i']; [lia|].
      destruct (lookup_lt_is_Some_2 (Close d) i') as [c Hc]; [lia|].
      assert (~ c == 0) as Hnz by (by apply (Forall_lookup_1 _ _ _ _ Hclose Hc)).
      pose proof (strategy_returns_net_lookup_S (Close d) pos com i' c ci
                    (Fin p) (Fin p) Hc Hci Hnz
                    (Hheld i' ltac:(lia)) (Hheld (S i') ltac:(lia))) as Hrow.
      fold net in Hrow. rewrite list_lookup_fmap, Hrow. by eexists. }
    destruct (cumprod_lookup _ i (Fin fi) Hfi) as (v & Hv & _ & Hprodi).
    specialize (Hprodi ltac:(done)).
    rewrite (product_upto_extend _ j i Hji) in Hprodi.
    assert (v ≈ Fin b) as Hvb.
    { etransitivity; [exact Hprodi|]. rewrite <- Hb.
      apply foldl_fl_mul_proper. by symmetry. }
    destruct (fl_eq_Fin_r _ _ Hvb) as (v' & -> & Hv').
    exists (cap * v'). rewrite list_lookup_fmap, Hv. split; [done|].
    destruct (Hratio cj ci Hcj Hci) as [Hone Hzero].
    split; intros Hp.
    - rewrite Hv'. transitivity (cap * (b * cj)); [ring|].
      rewrite (Hone Hp). ring.
    - by rewrite Hv', (Hzero Hp). }
  split; intros Hheld.
  - destruct (Hgeneral 1 Hheld) as (vi & Hvi & Hone & _).
    exists vi. split; [done|]. by apply Hone.
  - destruct (Hgeneral 0 Hheld) as (vi & Hvi & _ & Hzero).
    exists vi. split; [done|]. by apply Hzero.
Qed.

Lemma equity_between_trades_witness :
  let r := _calculate_returns_frame
             (generate_signals_frame ma_2_3 rising_rows) 10000 (1 # 1000) in
  exists vi,
    get_col "Portfolio_Value" r !! 7%nat = Some (Fin vi)
    /\ vi * 12 == (119890000000000000000 # 11000000000000000) * 15.
Proof.
  intros r.
  refine (proj1 (equity_between_trades
                   (generate_signals_frame ma_2_3 rising_rows) 10000 (1 # 1000)
                   4 7 12 15 (119890000000000000000 # 11000000000000000)
                   _ _ _ _ _) _).
  - rewrite Close_generate_signals. repeat constructor; by intros ?.
  - lia.
  - reflexivity.
  - reflexivity.
  - by vm_compute.
  - intros k Hk.
    do 8 (destruct k as [|k]; [first [lia | by vm_compute]|]). lia.
Defined.

(** ** A market that only rises *)











